(** * simple-inference-server: the model manager, the key checks and the
      request envelope, embedded from [app/config.py], [app/auth.py],
      [app/models.py], [app/llm.py] and [app/routes/*.py].

    Python values are modelled as follows.
    - [str] is [string], [int] is [Z], a finite [float] is its exact value
      in [Q] (infinities and NaN are not represented).
    - A function that may raise returns a [result]: [Ok v] or [Raise e].
    - A coroutine that touches the manager is a function on the [World]:
      the manager object together with the counters of the external
      library calls made so far (state passing).
    - [logger.*] calls have no influence on any value and are left out. *)

From Stdlib Require Import ZArith QArith Lia Ascii.
From stdpp Require Import base list strings pretty.

#[local] Open Scope Z_scope.
#[local] Open Scope string_scope.

(** ** Exceptions and results *)

Inductive exn : Type :=
  | RuntimeError (msg : string)
  | ValueError (msg : string)
  | IndexError (msg : string)
  | TypeError (msg : string)
  | AttributeError (msg : string)
  | ValidationError (errors : list string)
  | RequestValidationError (errors : list string)
  | EngineError (msg : string)
  | HTTPException (status_code : Z) (detail : string).

(** [str(e)]. [EngineError] stands for whatever the external library
    raises; a pydantic [ValidationError] is rendered as the list of the
    fields that failed. *)
Definition str (e : exn) : string :=
  match e with
  | RuntimeError m | ValueError m | IndexError m | TypeError m
  | AttributeError m | EngineError m => m
  | ValidationError errors | RequestValidationError errors =>
    String.concat "; " errors
  | HTTPException _ d => d
  end.

Inductive result (A : Type) : Type :=
  | Ok (a : A)
  | Raise (e : exn).
Arguments Ok {A} a.
Arguments Raise {A} e.

Definition is_ok {A} (r : result A) : bool :=
  match r with Ok _ => true | Raise _ => false end.

(** [fastapi.status] *)
Definition HTTP_200_OK : Z := 200.
Definition HTTP_401_UNAUTHORIZED : Z := 401.
Definition HTTP_403_FORBIDDEN : Z := 403.
Definition HTTP_422_UNPROCESSABLE_ENTITY : Z := 422.
Definition HTTP_500_INTERNAL_SERVER_ERROR : Z := 500.

(** ** app/config.py *)
Module Config.

Record Settings : Type := {
  port : Z;
  host : string;
  log_level : string;
  api_keys : list string;
  admin_api_key : string;
  model_path : string;
  model_name : string;
  n_gpu_layers : Z;
  n_ctx : Z;
  n_batch : Z;
  n_threads : Z;
  use_mlock : bool;
  use_mmap : bool;
  rope_freq_base : Q;
  rope_freq_scale : Q
}.

(** [Settings()] with nothing in the environment: the field defaults. *)
Definition default_settings : Settings := {|
  port := 1133;
  host := "0.0.0.0";
  log_level := "info";
  api_keys := [];
  admin_api_key := "";
  model_path := "/app/models/model.gguf";
  model_name := "llama-3-8b";
  n_gpu_layers := -1;
  n_ctx := 4096;
  n_batch := 512;
  n_threads := 8;
  use_mlock := true;
  use_mmap := true;
  rope_freq_base := 10000;
  rope_freq_scale := 1
|}.

Definition no_api_keys_msg : string :=
  "At least one API key must be configured. Set API_KEYS environment variable.".
Definition no_admin_key_msg : string :=
  "Admin API key must be configured. Set ADMIN_API_KEY environment variable.".

(** [Settings.validate_required_fields]: [not self.api_keys] is the
    empty list, [not self.admin_api_key] the empty string. *)
Definition validate_required_fields (self : Settings) : result unit :=
  if bool_decide (api_keys self = []) then Raise (ValueError no_api_keys_msg)
  else if bool_decide (admin_api_key self = "") then
    Raise (ValueError no_admin_key_msg)
  else Ok tt.

(** What importing the module leaves behind: the [settings] object and
    the warnings issued. The module body is
    [try: settings.validate_required_fields()
     except ValueError as e: warnings.warn(...)]. *)
Record Imported : Type := {
  settings : Settings;
  warnings : list string
}.

Definition import_module (env_settings : Settings) : result Imported :=
  match validate_required_fields env_settings with
  | Ok _ => Ok {| settings := env_settings; warnings := [] |}
  | Raise (ValueError m) =>
      Ok {| settings := env_settings;
            warnings := ["Configuration validation failed: " ++ m] |}
  | Raise e => Raise e
  end.

End Config.

(** ** app/auth.py *)
Module Auth.
Import Config.

Section WithSettings.
Variable settings : Settings.

(** [verify_api_key], on [credentials.credentials]. *)
Definition verify_api_key (token : string) : result string :=
  if bool_decide (token = "") then
    Raise (HTTPException HTTP_401_UNAUTHORIZED "Missing API key")
  else if negb (bool_decide (token ∈ api_keys settings)) then
    Raise (HTTPException HTTP_401_UNAUTHORIZED "Invalid API key")
  else Ok token.

(** [verify_admin_key], on [credentials.credentials]. *)
Definition verify_admin_key (token : string) : result string :=
  if bool_decide (token = "") then
    Raise (HTTPException HTTP_401_UNAUTHORIZED "Missing API key")
  else if negb (bool_decide (token = admin_api_key settings)) then
    Raise (HTTPException HTTP_403_FORBIDDEN "Admin access required")
  else Ok token.

End WithSettings.

End Auth.

(** ** app/models.py *)
Module Models.

(** [Literal["system", "user", "assistant"]] *)
Definition role_literals : list string := ["system"; "user"; "assistant"].
(** [Literal["stop", "length", "error"]] *)
Definition finish_reason_literals : list string := ["stop"; "length"; "error"].

Record Message : Type := {
  role : string;
  content : string
}.

(** [Message(role=..., content=...)]: the constructor validates the
    literal. *)
Definition mk_Message (r c : string) : result Message :=
  if bool_decide (r ∈ role_literals) then Ok {| role := r; content := c |}
  else Raise (ValidationError ["role"]).

Record ChatCompletionRequest : Type := {
  model : string;
  messages : list Message;
  temperature : Q;
  max_tokens : Z;
  top_p : Q;
  stream : bool;
  stop : option (list string)
}.

(** [Field(ge=lo, le=hi)] on a float and on an int. *)
Definition float_in (lo hi x : Q) : bool := Qle_bool lo x && Qle_bool x hi.
Definition int_in (lo hi x : Z) : bool := (lo <=? x)%Z && (x <=? hi)%Z.

(** The messages whose [role] is not one of the literals, each named by
    its place in the list. *)
Fixpoint message_errors (i : nat) (msgs : list Message) : list string :=
  match msgs with
  | [] => []
  | msg :: rest =>
      ((if bool_decide (role msg ∈ role_literals) then []
        else ["messages." +:+ pretty i +:+ ".role"]) ++
       message_errors (S i) rest)%list
  end.

(** The constraints declared on [ChatCompletionRequest] and on the
    [Message]s in it, in field order; the result lists the fields that
    violate theirs. *)
Definition field_errors (r : ChatCompletionRequest) : list string :=
  (message_errors 0 (messages r) ++
   (if float_in 0 2 (temperature r) then [] else ["temperature"]) ++
   (if int_in 1 32000 (max_tokens r) then [] else ["max_tokens"]) ++
   (if float_in 0 1 (top_p r) then [] else ["top_p"]))%list.

(** Validation of a request body whose fields are there and carry
    strings, integers and finite floats where the model declares them. *)
Definition validate (r : ChatCompletionRequest)
    : result ChatCompletionRequest :=
  match field_errors r with
  | [] => Ok r
  | errs => Raise (ValidationError errs)
  end.

Record Usage : Type := {
  prompt_tokens : Z;
  completion_tokens : Z;
  total_tokens : Z
}.

Record Choice : Type := {
  index : Z;
  message : Message;
  finish_reason : string
}.

(** [Choice(index=..., message=..., finish_reason=...)] *)
Definition mk_Choice (i : Z) (m : Message) (f : string) : result Choice :=
  if bool_decide (f ∈ finish_reason_literals) then
    Ok {| index := i; message := m; finish_reason := f |}
  else Raise (ValidationError ["finish_reason"]).

Record ChatCompletionResponse : Type := {
  id : string;
  object : string;
  created : Z;
  response_model : string;
  choices : list Choice;
  usage : Usage
}.

Record HealthResponse : Type := {
  status : string;
  model_loaded : bool
}.

Record ReloadResponse : Type := {
  reload_status : string;
  reload_message : string
}.

End Models.

(** ** app/llm.py *)
Module Llm.
Import Config.

(** A [Llama] object is known by its identity: the [n]-th object the
    constructor built. *)
Record Llama : Type := { llama_id : nat }.

#[export] Instance Llama_eq_dec : EqDecision Llama.
Proof. solve_decision. Defined.

(** The attributes set by [LLMManager.__init__]; [_lock] is [true] while
    the [asyncio.Lock] is held. *)
Record LLMManager : Type := {
  _llm : option Llama;
  _lock : bool;
  _loading : bool
}.

Definition __init__ : LLMManager :=
  {| _llm := None; _lock := false; _loading := false |}.

(** The manager and what the external library has been asked so far:
    [loads] counts the invocations of [_load_model], [calls] the
    inference calls. *)
Record World : Type := {
  manager : LLMManager;
  loads : nat;
  calls : nat
}.

Definition start : World := {| manager := __init__; loads := 0; calls := 0 |}.

Definition set_llm (v : option Llama) (w : World) : World :=
  {| manager := {| _llm := v; _lock := _lock (manager w);
                   _loading := _loading (manager w) |};
     loads := loads w; calls := calls w |}.

Definition set_lock (b : bool) (w : World) : World :=
  {| manager := {| _llm := _llm (manager w); _lock := b;
                   _loading := _loading (manager w) |};
     loads := loads w; calls := calls w |}.

Definition count_load (w : World) : World :=
  {| manager := manager w; loads := S (loads w); calls := calls w |}.

Definition count_call (w : World) : World :=
  {| manager := manager w; loads := loads w; calls := S (calls w) |}.

(** [LLMManager.is_loaded] *)
Definition is_loaded (w : World) : bool :=
  match _llm (manager w) with Some _ => true | None => false end.

(** The dict [llama-cpp-python] returns from a chat completion, in the
    OpenAI shape the route reads: [finish_reason] may be absent. *)
Record MessageDict : Type := { d_role : string; d_content : string }.
Record ChoiceDict : Type := {
  d_message : MessageDict;
  d_finish_reason : option string
}.
Record UsageDict : Type := {
  d_prompt_tokens : Z;
  d_completion_tokens : Z;
  d_total_tokens : Z
}.
Record ChatDict : Type := {
  d_choices : list ChoiceDict;
  d_usage : UsageDict
}.

(** A coroutine run on its own, without interleaving: [None] when it
    never completes (it waits for a lock nobody releases). *)
Definition M (A : Type) : Type := World -> option (result A * World).

Definition ret {A} (a : A) : M A := fun w => Some (Ok a, w).
Definition raise {A} (e : exn) : M A := fun w => Some (Raise e, w).
Definition bind {A B} (m : M A) (f : A -> M B) : M B := fun w =>
  match m w with
  | None => None
  | Some (Ok a, w') => f a w'
  | Some (Raise e, w') => Some (Raise e, w')
  end.
(** [try: m  except Exception as e: h e] *)
Definition try_except {A} (m : M A) (h : exn -> M A) : M A := fun w =>
  match m w with
  | Some (Raise e, w') => h e w'
  | r => r
  end.
Definition get {A} (f : World -> A) : M A := fun w => Some (Ok (f w), w).
Definition modify (f : World -> World) : M unit := fun w => Some (Ok tt, f w).

(** [async with self._lock: body]: waits while the lock is held, and
    releases it however [body] ends. *)
Definition async_with_lock {A} (body : M A) : M A := fun w =>
  if _lock (manager w) then None
  else match body (set_lock true w) with
       | None => None
       | Some (r, w') => Some (r, set_lock false w')
       end.

Notation "x <- m ;; k" := (bind m (fun x => k))
  (at level 20, m at level 99, k at level 200, only parsing).

Section Engine.
Variable settings : Settings.
(** The external world: whether [model_path.exists()] holds at the
    [n]-th load, whether the [n]-th [Llama(...)] raises (with which
    text), and what the [n]-th inference call on a handle gives. *)
Variable path_exists : nat -> bool.
Variable Llama_init : nat -> option string.
Variable completion_dict : Type.
Variable llama_call :
  Llama -> nat -> string -> Z -> Q -> Q -> option (list string) ->
  result completion_dict.
Variable llama_create_chat_completion :
  Llama -> nat -> list (string * string) -> Z -> Q -> Q ->
  option (list string) -> result ChatDict.

(** The body of [_load_model] at its [n]-th invocation: every
    exception of the [try] block, the missing file included, comes out
    as a [RuntimeError]. *)
Definition load_result (n : nat) : result Llama :=
  let attempt :=
    if negb (path_exists n) then
      Raise (RuntimeError
        ("Model file not found: " ++ model_path settings ++
         ". Please download a GGUF model to the models directory."))
    else match Llama_init n with
         | Some m => Raise (EngineError m)
         | None => Ok {| llama_id := n |}
         end in
  match attempt with
  | Ok llm => Ok llm
  | Raise e => Raise (RuntimeError ("Failed to load model: " ++ str e))
  end.

Definition _load_model : M Llama := fun w =>
  Some (load_result (loads w), count_load w).

(** [LLMManager.get_llm] *)
Definition get_llm : M (option Llama) :=
  llm <- get (fun w => _llm (manager w)) ;;
  _ <- match llm with
       | None =>
           async_with_lock (
             llm' <- get (fun w => _llm (manager w)) ;;
             match llm' with
             | None =>
                 loaded <- _load_model ;; modify (set_llm (Some loaded))
             | Some _ => ret tt
             end)
       | Some _ => ret tt
       end ;;
  get (fun w => _llm (manager w)).

(** [LLMManager.reload_model] *)
Definition reload_model : M unit :=
  async_with_lock (
    llm <- get (fun w => _llm (manager w)) ;;
    _ <- match llm with
         | Some _ => modify (set_llm None)
         | None => ret tt
         end ;;
    loaded <- _load_model ;;
    modify (set_llm (Some loaded))).

(** [LLMManager.generate_completion] *)
Definition generate_completion (prompt : string) (max_tokens : Z)
    (temperature top_p : Q) (stop : option (list string))
    : M completion_dict :=
  llm <- get_llm ;;
  try_except
    (match llm with
     | None => raise (TypeError "'NoneType' object is not callable")
     | Some h => fun w =>
         Some (llama_call h (calls w) prompt max_tokens temperature top_p stop,
               count_call w)
     end)
    (fun e => raise (RuntimeError ("Generation failed: " ++ str e))).

(** [LLMManager.create_chat_completion] *)
Definition create_chat_completion (messages : list (string * string))
    (max_tokens : Z) (temperature top_p : Q) (stop : option (list string))
    : M ChatDict :=
  llm <- get_llm ;;
  try_except
    (match llm with
     | None =>
         raise (AttributeError
           "'NoneType' object has no attribute 'create_chat_completion'")
     | Some h => fun w =>
         Some (llama_create_chat_completion h (calls w) messages max_tokens
                 temperature top_p stop,
               count_call w)
     end)
    (fun e => raise (RuntimeError ("Chat completion failed: " ++ str e))).


(** *** Sequences of calls *)

(** The stored handle was built by a load that has been made. *)
Definition handle_known (w : World) : Prop :=
  forall h, _llm (manager w) = Some h -> (llama_id h < loads w)%nat.

(** What a caller may do between two reloads. *)
Inductive call : Type :=
  | Acquire
  | Generate (prompt : string) (max_tokens : Z) (temperature top_p : Q)
      (stop : option (list string))
  | Chat (messages : list (string * string)) (max_tokens : Z)
      (temperature top_p : Q) (stop : option (list string)).

(** The calls are made one after the other; the results of the
    [get_llm] calls among them are collected. *)
Fixpoint acquisitions (cs : list call) (w : World)
    : list (result (option Llama)) :=
  match cs with
  | [] => []
  | Acquire :: cs' =>
      match get_llm w with
      | None => []
      | Some (r, w') => r :: acquisitions cs' w'
      end
  | Generate prompt mt t p stop :: cs' =>
      match generate_completion prompt mt t p stop w with
      | None => []
      | Some (_, w') => acquisitions cs' w'
      end
  | Chat msgs mt t p stop :: cs' =>
      match create_chat_completion msgs mt t p stop w with
      | None => []
      | Some (_, w') => acquisitions cs' w'
      end
  end.

Fixpoint count_acquire (cs : list call) : nat :=
  match cs with
  | [] => O
  | Acquire :: cs' => S (count_acquire cs')
  | _ :: cs' => count_acquire cs'
  end.

(** *** Concurrent callers

    Several coroutines share the manager. A task is at a control
    point, named after the source line it is about to run; one step
    runs one statement, and the scheduler may switch task between any
    two steps. This allows every interleaving the event loop can
    produce (it only switches at an [await]) and more. *)
Inductive pc : Type :=
  | G40              (* get_llm: about to test [self._llm is None] *)
  | G41              (* waiting at [async with self._lock] *)
  | G42              (* lock held, about to test again *)
  | G44 (n : nat)    (* lock held, [_load_model()] number [n] running *)
  | G45              (* lock held, leaving the [async with] block *)
  | G46              (* about to [return self._llm] *)
  | R100             (* reload_model: waiting at [async with self._lock] *)
  | R104             (* lock held, about to drop the old handle *)
  | R109             (* lock held, about to call [_load_model] *)
  | R109' (n : nat)  (* lock held, load number [n] running *)
  | R110             (* lock held, leaving the [async with] block *)
  | Returned (v : option Llama)
  | Raised (e : exn).

(** One statement of a task; [None] when the task cannot move: it has
    finished, or it waits for the lock. *)
Definition step_pc (p : pc) (w : World) : option (pc * World) :=
  match p with
  | G40 =>
      match _llm (manager w) with
      | None => Some (G41, w)
      | Some _ => Some (G46, w)
      end
  | G41 => if _lock (manager w) then None else Some (G42, set_lock true w)
  | G42 =>
      match _llm (manager w) with
      | None => Some (G44 (loads w), count_load w)
      | Some _ => Some (G45, w)
      end
  | G44 n =>
      match load_result n with
      | Ok loaded => Some (G45, set_llm (Some loaded) w)
      | Raise e => Some (Raised e, set_lock false w)
      end
  | G45 => Some (G46, set_lock false w)
  | G46 => Some (Returned (_llm (manager w)), w)
  | R100 => if _lock (manager w) then None else Some (R104, set_lock true w)
  | R104 =>
      match _llm (manager w) with
      | Some _ => Some (R109, set_llm None w)
      | None => Some (R109, w)
      end
  | R109 => Some (R109' (loads w), count_load w)
  | R109' n =>
      match load_result n with
      | Ok loaded => Some (R110, set_llm (Some loaded) w)
      | Raise e => Some (Raised e, set_lock false w)
      end
  | R110 => Some (Returned None, set_lock false w)
  | Returned _ | Raised _ => None
  end.

Record Sys : Type := {
  world : World;
  tasks : list pc
}.

(** Task [i] runs one statement. *)
Definition step (i : nat) (s : Sys) : option Sys :=
  match tasks s !! i with
  | None => None
  | Some p =>
      match step_pc p (world s) with
      | None => None
      | Some (p', w') => Some {| world := w'; tasks := <[i := p']> (tasks s) |}
      end
  end.

(** A schedule names the task to run at each turn; a task that cannot
    move leaves the system as it is. *)
Fixpoint run (schedule : list nat) (s : Sys) : Sys :=
  match schedule with
  | [] => s
  | i :: rest => run rest (default s (step i s))
  end.

Definition finished (p : pc) : bool :=
  match p with Returned _ | Raised _ => true | _ => false end.

(** The task is inside [_load_model]. *)
Definition loading (p : pc) : bool :=
  match p with G44 _ | R109' _ => true | _ => false end.

(** The task holds the lock. *)
Definition holding (p : pc) : bool :=
  match p with
  | G42 | G44 _ | G45 | R104 | R109 | R109' _ | R110 => true
  | _ => false
  end.

Fixpoint weigh (f : pc -> nat) (l : list pc) : nat :=
  match l with
  | [] => O
  | p :: l' => (f p + weigh f l')%nat
  end.

(** How many tasks satisfy [f]. *)
Definition count (f : pc -> bool) (l : list pc) : nat :=
  weigh (fun p => if f p then 1%nat else 0%nat) l.

(** A bound on the statements a task still has to run. *)
Definition remaining (p : pc) : nat :=
  match p with
  | G40 => 6 | G41 => 5 | G42 => 4 | G44 _ => 3 | G45 => 2 | G46 => 1
  | R100 => 5 | R104 => 4 | R109 => 3 | R109' _ => 2 | R110 => 1
  | Returned _ | Raised _ => 0
  end.

(** [n] concurrent calls of [get_llm] on the world [w]. *)
Definition callers (n : nat) (w : World) : Sys :=
  {| world := w; tasks := replicate n G40 |}.

(** A task run on its own until it stops. *)
Fixpoint run_task (fuel : nat) (p : pc) (w : World) : pc * World :=
  match fuel with
  | O => (p, w)
  | S fuel' =>
      match step_pc p w with
      | None => (p, w)
      | Some (p', w') => run_task fuel' p' w'
      end
  end.

(** A task that holds the lock without loading. *)
Definition idle_holder (p : pc) : bool := holding p && negb (loading p).

Definition all_finished (s : Sys) : bool := forallb finished (tasks s).

(** The lock is held exactly when one task is inside an
    [async with self._lock] block. *)
Definition lock_inv (s : Sys) : Prop :=
  count holding (tasks s) =
  if _lock (manager (world s)) then 1%nat else 0%nat.

(** Callers of [get_llm] that found the manager unloaded after [L0]
    loads, the next load giving [h0]: where a task can be while no
    handle is stored, and where once [h0] is stored. *)
Definition early (L0 : nat) (p : pc) : Prop :=
  match p with
  | G40 | G41 | G42 => True
  | G44 n => n = L0
  | _ => False
  end.

Definition late (h0 : Llama) (p : pc) : Prop :=
  match p with
  | G40 | G41 | G42 | G44 _ | G45 | G46 => True
  | Returned v => v = Some h0
  | _ => False
  end.

Definition once_inv (L0 : nat) (h0 : Llama) (s : Sys) : Prop :=
  lock_inv s /\
  match _llm (manager (world s)) with
  | None =>
      loads (world s) = (L0 + count loading (tasks s))%nat /\
      Forall (early L0) (tasks s)
  | Some h =>
      h = h0 /\ loads (world s) = S L0 /\
      count loading (tasks s) = O /\ Forall (late h0) (tasks s)
  end.

End Engine.

End Llm.

(** ** app/routes/health.py, app/routes/chat.py, app/routes/admin.py *)
Module Routes.
Import Config Models Llm.

(** What FastAPI sends back. *)
Inductive Body : Type :=
  | HealthBody (r : HealthResponse)
  | ChatBody (r : ChatCompletionResponse)
  | ReloadBody (r : ReloadResponse)
  | ErrorBody (detail : string)
  | ValidationBody (errors : list string).

Record Response : Type := {
  status_code : Z;
  body : Body
}.

(** A returned model is a 200; an [HTTPException] carries its own
    status; a request body that fails validation is a 422; anything else
    reaches [global_exception_handler] in [app/main.py]. *)
Definition respond (r : result Body) : Response :=
  match r with
  | Ok b => {| status_code := HTTP_200_OK; body := b |}
  | Raise (HTTPException c d) => {| status_code := c; body := ErrorBody d |}
  | Raise (RequestValidationError errs) =>
      {| status_code := HTTP_422_UNPROCESSABLE_ENTITY;
         body := ValidationBody errs |}
  | Raise _ =>
      {| status_code := HTTP_500_INTERNAL_SERVER_ERROR;
         body := ErrorBody "Internal server error" |}
  end.

(** The body of a request, as FastAPI hands it to a route that declares
    [request: ChatCompletionRequest]: the model's [ValidationError]
    becomes a [RequestValidationError]. *)
Definition request_body (r : ChatCompletionRequest)
    : result ChatCompletionRequest :=
  match validate r with
  | Raise (ValidationError errs) => Raise (RequestValidationError errs)
  | other => other
  end.

(** The [Depends(...)] in a route's signature. *)
Inductive Dependency : Type := NoAuth | ApiKey | AdminKey.

Inductive Endpoint : Type :=
  | Health | ListModels | ChatCompletions | AdminInfo | AdminReload.

Definition depends (e : Endpoint) : Dependency :=
  match e with
  | Health => NoAuth
  | ListModels | ChatCompletions => ApiKey
  | AdminInfo | AdminReload => AdminKey
  end.

Section App.
Variable settings : Settings.
Variable path_exists : nat -> bool.
Variable Llama_init : nat -> option string.
Variable llama_create_chat_completion :
  Llama -> nat -> list (string * string) -> Z -> Q -> Q ->
  option (list string) -> result ChatDict.
(** [HTTPBearer] of [fastapi.security], from the [Authorization]
    header (if any) to [credentials.credentials]. *)
Variable security : option string -> result string.

Definition authenticate (d : Dependency) (authorization : option string)
    : result unit :=
  match d with
  | NoAuth => Ok tt
  | ApiKey =>
      match security authorization with
      | Ok token =>
          match Auth.verify_api_key settings token with
          | Ok _ => Ok tt
          | Raise e => Raise e
          end
      | Raise e => Raise e
      end
  | AdminKey =>
      match security authorization with
      | Ok token =>
          match Auth.verify_admin_key settings token with
          | Ok _ => Ok tt
          | Raise e => Raise e
          end
      | Raise e => Raise e
      end
  end.

(** [health_check] *)
Definition health_check (w : World) : HealthResponse :=
  {| status := "ok"; model_loaded := is_loaded w |}.

(** [GET /health] *)
Definition get_health (authorization : option string) (w : World)
    : Response :=
  match authenticate (depends Health) authorization with
  | Ok _ => respond (Ok (HealthBody (health_check w)))
  | Raise e => respond (Raise e)
  end.

Definition lift {A} (r : result A) : M A := fun w => Some (r, w).

(** [create_chat_completion] of [app/routes/chat.py]; [uuid_hex] is
    [uuid.uuid4().hex] and [now] is [int(time.time())]. *)
Definition create_chat_completion (uuid_hex : string) (now : Z)
    (request : ChatCompletionRequest) : M ChatCompletionResponse :=
  try_except
    (let msgs := map (fun msg => (role msg, content msg)) (messages request) in
     response <- Llm.create_chat_completion settings path_exists
                   Llama_init llama_create_chat_completion msgs
                   (max_tokens request) (temperature request)
                   (top_p request) (stop request) ;;
     choice_data <- match d_choices response with
                    | [] => raise (IndexError "list index out of range")
                    | c :: _ => ret c
                    end ;;
     let usage_data := d_usage response in
     msg <- lift (mk_Message (d_role (d_message choice_data))
                             (d_content (d_message choice_data))) ;;
     choice <- lift (mk_Choice 0 msg
                       (default "stop" (d_finish_reason choice_data))) ;;
     ret {| id := "chatcmpl-" ++ String.substring 0 12 uuid_hex;
            object := "chat.completion";
            created := now;
            response_model := model_name settings;
            choices := [choice];
            usage := {| prompt_tokens := d_prompt_tokens usage_data;
                        completion_tokens := d_completion_tokens usage_data;
                        total_tokens := d_total_tokens usage_data |} |})
    (fun e =>
       match e with
       | RuntimeError _ =>
           raise (HTTPException HTTP_500_INTERNAL_SERVER_ERROR
                    ("Generation failed: " ++ str e))
       | _ =>
           raise (HTTPException HTTP_500_INTERNAL_SERVER_ERROR
                    ("Unexpected error: " ++ str e))
       end).

(** [POST /v1/chat/completions]: FastAPI runs the dependency, then
    validates the body, then calls the route. *)
Definition post_chat_completions (authorization : option string)
    (uuid_hex : string) (now : Z) (body : ChatCompletionRequest)
    : World -> option (Response * World) := fun w =>
  match authenticate (depends ChatCompletions) authorization with
  | Raise e => Some (respond (Raise e), w)
  | Ok _ =>
      match request_body body with
      | Raise e => Some (respond (Raise e), w)
      | Ok request =>
          match create_chat_completion uuid_hex now request w with
          | None => None
          | Some (Ok r, w') => Some (respond (Ok (ChatBody r)), w')
          | Some (Raise e, w') => Some (respond (Raise e), w')
          end
      end
  end.

(** [reload_model] of [app/routes/admin.py] *)
Definition reload_model : M ReloadResponse :=
  try_except
    (_ <- Llm.reload_model settings path_exists Llama_init ;;
     ret {| reload_status := "success";
            reload_message := "Model reloaded successfully" |})
    (fun e =>
       raise (HTTPException HTTP_500_INTERNAL_SERVER_ERROR
                ("Model reload failed: " ++ str e))).

End App.

(** What the routes rely on of [HTTPBearer]: it never hands over an
    empty credential (it refuses such a request itself). *)
Definition hands_over_credentials (security : option string -> result string)
    : Prop :=
  forall authorization token,
    security authorization = Ok token -> token <> "".

(** The part of the engine's dict the route can turn into an envelope: a
    first choice whose role and finish reason are among the literals of
    [Message] and [Choice]. *)
Definition renders (d : ChatDict) : Prop :=
  match d_choices d with
  | [] => False
  | c0 :: _ =>
      d_role (d_message c0) ∈ role_literals /\
      default "stop" (d_finish_reason c0) ∈ finish_reason_literals
  end.

(** The envelope carries the first choice and the usage of the dict. *)
Definition carries (env : ChatCompletionResponse) (d : ChatDict) : Prop :=
  exists c0 rest c,
    d_choices d = c0 :: rest /\
    choices env = [c] /\
    index c = 0 /\
    role (message c) = d_role (d_message c0) /\
    content (message c) = d_content (d_message c0) /\
    finish_reason c = default "stop" (d_finish_reason c0) /\
    prompt_tokens (usage env) = d_prompt_tokens (d_usage d) /\
    completion_tokens (usage env) = d_completion_tokens (d_usage d) /\
    total_tokens (usage env) = d_total_tokens (d_usage d).

End Routes.

(** ** Python [str] methods used by the configuration

    A [string] stands for a [str] whose code points are below 256. *)
Module Str.

(** [c.isspace()]: the whitespace code points below 256 are tab to
    carriage return, the four separators 0x1c to 0x1f, the space, 0x85
    and 0xa0. *)
Definition isspace (c : ascii) : bool :=
  let n := nat_of_ascii c in
  ((9 <=? n) && (n <=? 13) || (28 <=? n) && (n <=? 32) ||
   (n =? 133) || (n =? 160))%nat.

(** [s.lstrip()], [s.rstrip()] and [s.strip()] *)
Fixpoint lstrip (s : string) : string :=
  match s with
  | EmptyString => EmptyString
  | String c s' => if isspace c then lstrip s' else s
  end.

Fixpoint rstrip (s : string) : string :=
  match s with
  | EmptyString => EmptyString
  | String c s' =>
      match rstrip s' with
      | EmptyString => if isspace c then EmptyString else String c EmptyString
      | r => String c r
      end
  end.

Definition strip (s : string) : string := rstrip (lstrip s).

(** [s.split(sep)] for a one-character separator: empty pieces are kept,
    and the empty string gives one empty piece. *)
Fixpoint split (sep : ascii) (s : string) : list string :=
  match s with
  | EmptyString => [EmptyString]
  | String c s' =>
      if Ascii.eqb c sep then EmptyString :: split sep s'
      else match split sep s' with
           | piece :: pieces => String c piece :: pieces
           | [] => [String c EmptyString]
           end
  end.

(** [sep.join(pieces)] *)
Definition join (sep : ascii) (pieces : list string) : string :=
  String.concat (String sep EmptyString) pieces.

(** [c in s] *)
Fixpoint contains (c : ascii) (s : string) : bool :=
  match s with
  | EmptyString => false
  | String c' s' => Ascii.eqb c' c || contains c s'
  end.

(** [bool(s)] *)
Definition nonempty (s : string) : bool :=
  match s with EmptyString => false | String _ _ => true end.

(** The string is empty or starts with a character that is not
    whitespace. *)
Definition head_ok (s : string) : Prop :=
  match s with
  | EmptyString => True
  | String c _ => isspace c = false
  end.

(** A key as [parse_api_keys] leaves it: not empty, nothing to strip, no
    comma. *)
Definition clean (k : string) : Prop :=
  k <> EmptyString /\ strip k = k /\ contains "," k = false.

End Str.

(** ** app/config.py: the validators that run before the fields are set *)
Module ConfigEnv.
Import Config.

(** What reaches [parse_api_keys]: a [str] or a list, as in
    [Settings(api_keys="a,b")] and [Settings(api_keys=["a", "b"])]. (A
    value of the environment is decoded as JSON before it gets here; one
    that does not decode stops [Settings()] with an error.) *)
Inductive raw_api_keys : Type :=
  | RawStr (v : string)
  | RawList (v : list string).

(** [Settings.parse_api_keys] *)
Definition parse_api_keys (v : raw_api_keys) : list string :=
  match v with
  | RawStr v =>
      map Str.strip
        (List.filter (fun key => Str.nonempty (Str.strip key))
           (Str.split "," v))
  | RawList v => v
  end.

(** The settings once the value [v] given for the [api_keys] field has
    been validated. *)
Definition with_api_keys (s : Settings) (v : raw_api_keys) : Settings := {|
  port := port s; host := host s; log_level := log_level s;
  api_keys := parse_api_keys v;
  admin_api_key := admin_api_key s;
  model_path := model_path s; model_name := model_name s;
  n_gpu_layers := n_gpu_layers s; n_ctx := n_ctx s; n_batch := n_batch s;
  n_threads := n_threads s; use_mlock := use_mlock s; use_mmap := use_mmap s;
  rope_freq_base := rope_freq_base s; rope_freq_scale := rope_freq_scale s
|}.

End ConfigEnv.

(** ** app/routes/health.py and app/routes/admin.py: the other routes *)
Module Endpoints.
Import Config Models Llm Routes.

Record ModelInfo : Type := {
  info_id : string;
  info_object : string;
  owned_by : string
}.

Record ModelsResponse : Type := {
  list_object : string;
  data : list ModelInfo
}.

Record ServerInfo : Type := {
  info_model_name : string;
  info_model_path : string;
  info_n_ctx : Z;
  info_n_gpu_layers : Z;
  info_model_loaded : bool
}.

(** The status FastAPI answers with and, for a 200, the model it sends:
    as [respond], for any response model. *)
Definition reply {A} (r : result A) : Z * option A :=
  match r with
  | Ok a => (HTTP_200_OK, Some a)
  | Raise (HTTPException c _) => (c, None)
  | Raise (RequestValidationError _) => (HTTP_422_UNPROCESSABLE_ENTITY, None)
  | Raise _ => (HTTP_500_INTERNAL_SERVER_ERROR, None)
  end.

Section App.
Variable settings : Settings.
Variable path_exists : nat -> bool.
Variable Llama_init : nat -> option string.
Variable security : option string -> result string.

(** [list_models] *)
Definition list_models : ModelsResponse :=
  {| list_object := "list";
     data := [ {| info_id := model_name settings;
                  info_object := "model";
                  owned_by := "local" |} ] |}.

(** [GET /v1/models] *)
Definition get_models (authorization : option string)
    : Z * option ModelsResponse :=
  match authenticate settings security (depends ListModels) authorization with
  | Raise e => reply (Raise e)
  | Ok _ => reply (Ok list_models)
  end.

(** [get_server_info] *)
Definition get_server_info (w : World) : ServerInfo :=
  {| info_model_name := model_name settings;
     info_model_path := model_path settings;
     info_n_ctx := n_ctx settings;
     info_n_gpu_layers := n_gpu_layers settings;
     info_model_loaded := is_loaded w |}.

(** [GET /admin/info] *)
Definition get_admin_info (authorization : option string) (w : World)
    : Z * option ServerInfo :=
  match authenticate settings security (depends AdminInfo) authorization with
  | Raise e => reply (Raise e)
  | Ok _ => reply (Ok (get_server_info w))
  end.

(** [POST /admin/reload] *)
Definition post_admin_reload (authorization : option string)
    : World -> option (Response * World) := fun w =>
  match authenticate settings security (depends AdminReload) authorization with
  | Raise e => Some (respond (Raise e), w)
  | Ok _ =>
      match Routes.reload_model settings path_exists Llama_init w with
      | None => None
      | Some (Ok r, w') => Some (respond (Ok (ReloadBody r)), w')
      | Some (Raise e, w') => Some (respond (Raise e), w')
      end
  end.

End App.

End Endpoints.

(** ** app/main.py *)
Module Main.
Import Config Llm.

Section App.
Variable settings : Settings.
Variable path_exists : nat -> bool.
Variable Llama_init : nat -> option string.

(** The start-up half of [lifespan]:
    [try: await llm_manager.get_llm()  except Exception: logger.warning]. *)
Definition lifespan_startup : M unit :=
  try_except
    (_ <- get_llm settings path_exists Llama_init ;; ret tt)
    (fun _ => ret tt).

End App.

End Main.

(** ** The manager under any sequence of calls *)
Module Calls.
Import Config Llm.

Section Engine.
Variable settings : Settings.
Variable path_exists : nat -> bool.
Variable Llama_init : nat -> option string.
Variable completion_dict : Type.
Variable llama_call :
  Llama -> nat -> string -> Z -> Q -> Q -> option (list string) ->
  result completion_dict.
Variable llama_create_chat_completion :
  Llama -> nat -> list (string * string) -> Z -> Q -> Q ->
  option (list string) -> result ChatDict.

(** One call of a method of the manager, run to its end. *)
Inductive op : Type :=
  | Call (c : call)
  | Reload.

Definition world_after {A} (r : option (result A * World)) : option World :=
  match r with
  | Some (_, w') => Some w'
  | None => None
  end.

Definition perform (o : op) (w : World) : option World :=
  match o with
  | Call Acquire => world_after (get_llm settings path_exists Llama_init w)
  | Call (Generate prompt mt t p stop) =>
      world_after
        (generate_completion settings path_exists Llama_init completion_dict
           llama_call prompt mt t p stop w)
  | Call (Chat msgs mt t p stop) =>
      world_after
        (create_chat_completion settings path_exists Llama_init
           llama_create_chat_completion msgs mt t p stop w)
  | Reload => world_after (reload_model settings path_exists Llama_init w)
  end.

Fixpoint perform_all (ops : list op) (w : World) : option World :=
  match ops with
  | [] => Some w
  | o :: ops' =>
      match perform o w with
      | None => None
      | Some w' => perform_all ops' w'
      end
  end.

End Engine.

(** The lock is free and the stored handle, if any, was built by the
    latest invocation of [_load_model]. *)
Definition settled (w : World) : Prop :=
  _lock (manager w) = false /\
  forall h, _llm (manager w) = Some h -> S (llama_id h) = loads w.

(** What one call leaves: the lock free, the latest handle, at most one
    more load and one more inference call. *)
Definition advanced (w w' : World) : Prop :=
  settled w' /\
  (loads w <= loads w' <= S (loads w))%nat /\
  (calls w <= calls w' <= S (calls w))%nat.

(** The task has not called [_load_model] yet and may still do so. *)
Definition may_load (p : pc) : nat :=
  match p with
  | G40 | G41 | G42 | R100 | R104 | R109 => 1
  | _ => 0
  end.

(** A task that has not started: a call of [get_llm] or of
    [reload_model]. *)
Definition fresh (p : pc) : Prop := p = G40 \/ p = R100.

End Calls.

(** ** scripts/generate_api_key.py *)
Module Scripts.

(** [string.ascii_letters + string.digits] *)
Definition ascii_lowercase : string := "abcdefghijklmnopqrstuvwxyz".
Definition ascii_uppercase : string := "ABCDEFGHIJKLMNOPQRSTUVWXYZ".
Definition digits : string := "0123456789".
Definition ascii_letters : string := ascii_lowercase ++ ascii_uppercase.
Definition alphabet : string := ascii_letters ++ digits.

(** [secrets.choice(seq)], the random number drawn being [r] reduced
    below [len(seq)]; an empty sequence raises. *)
Definition choice (seq : string) (r : nat) : result ascii :=
  match String.get (r mod String.length seq) seq with
  | Some c => Ok c
  | None => Raise (IndexError "Cannot choose from an empty sequence")
  end.

(** [''.join(secrets.choice(alphabet) for _ in range(n))], the draws
    being numbered from [i]. *)
Fixpoint random_string (draws : nat -> nat) (i n : nat) : result string :=
  match n with
  | O => Ok EmptyString
  | S n' =>
      match choice alphabet (draws i) with
      | Raise e => Raise e
      | Ok c =>
          match random_string draws (S i) n' with
          | Raise e => Raise e
          | Ok rest => Ok (String c rest)
          end
      end
  end.

(** [generate_api_key(prefix, length)]; [range(length)] is empty for a
    negative [length]. *)
Definition generate_api_key (draws : nat -> nat) (prefix : string)
    (length : Z) : result string :=
  match random_string draws 0 (Z.to_nat length) with
  | Raise e => Raise e
  | Ok r => Ok (prefix ++ "-" ++ r)
  end.

End Scripts.

(** ** Configurations and requests of the tests *)

Import Config Models Llm.

(** A configuration whose key list holds the empty string; it passes
    [validate_required_fields]. *)
Definition blank_key_settings : Settings := {|
  port := 1133; host := "0.0.0.0"; log_level := "info";
  api_keys := [""; "sk-test-key-123"];
  admin_api_key := "sk-admin-test-key";
  model_path := "/app/models/model.gguf"; model_name := "llama-3-8b";
  n_gpu_layers := -1; n_ctx := 4096; n_batch := 512; n_threads := 8;
  use_mlock := true; use_mmap := true;
  rope_freq_base := 10000; rope_freq_scale := 1
|}.

(** The configuration of [tests/test_auth.py]. *)
Definition test_settings : Settings := {|
  port := 1133; host := "0.0.0.0"; log_level := "info";
  api_keys := ["sk-test-key-123"; "sk-test-key-456"];
  admin_api_key := "sk-admin-test-key";
  model_path := "/app/models/model.gguf"; model_name := "test-model";
  n_gpu_layers := -1; n_ctx := 4096; n_batch := 512; n_threads := 8;
  use_mlock := true; use_mmap := true;
  rope_freq_base := 10000; rope_freq_scale := 1
|}.

(** The request of [tests/test_endpoints.py], with the three sampling
    parameters left open. *)
Definition hello_request (t : Q) (m : Z) (p : Q) : ChatCompletionRequest := {|
  model := "test-model";
  messages := [ {| role := "user"; content := "Hello" |} ];
  temperature := t;
  max_tokens := m;
  top_p := p;
  stream := false;
  stop := None
|}.

(** [temperature=0.7, max_tokens=100] *)
Definition hello : ChatCompletionRequest := hello_request (7 # 10) 100 1.

(** The same request from a sender whose role is not one of the
    literals. *)
Definition bogus_role_request : ChatCompletionRequest := {|
  model := "test-model";
  messages := [ {| role := "bogus"; content := "Hello" |} ];
  temperature := 7 # 10;
  max_tokens := 100;
  top_p := 1;
  stream := false;
  stop := None
|}.

(** The model file is there at every load, or at none; the constructor
    never raises. *)
Definition file_present (n : nat) : bool := true.
Definition file_missing (n : nat) : bool := false.
Definition init_ok (n : nat) : option string := None.

(** What [_load_model] raises with the default settings when the file is
    missing. *)
Definition missing_model_error : exn :=
  RuntimeError
    ("Failed to load model: Model file not found: /app/models/model.gguf. "
     ++ "Please download a GGUF model to the models directory.").

(** The handle of the first load, and a manager that holds it. *)
Definition first_handle : Llama := {| llama_id := 0 |}.

Definition loaded_world : World := {|
  manager := {| _llm := Some first_handle; _lock := false;
                _loading := false |};
  loads := 1;
  calls := 0
|}.

(** The same manager after a reload that succeeded. *)
Definition reloaded_world : World := {|
  manager := {| _llm := Some {| llama_id := 1 |}; _lock := false;
                _loading := false |};
  loads := 2;
  calls := 0
|}.

(** Two callers of [get_llm] on a fresh manager, the file missing, the
    first caller run to its end and then the second. *)
Definition two_callers_file_missing : Sys :=
  run default_settings file_missing init_ok [0; 0; 0; 0; 1; 1; 1; 1]%nat
    (callers 2 start).

(** A stub engine that answers every chat request with the same dict,
    and one that always raises. *)
Definition stub_completion : ChatDict := {|
  d_choices := [ {| d_message := {| d_role := "assistant";
                                    d_content := "Hi there" |};
                    d_finish_reason := Some "stop" |} ];
  d_usage := {| d_prompt_tokens := 5; d_completion_tokens := 3;
                d_total_tokens := 8 |}
|}.

Definition stub_chat (h : Llama) (n : nat) (msgs : list (string * string))
    (mt : Z) (t p : Q) (stop : option (list string)) : result ChatDict :=
  Ok stub_completion.

Definition stub_call (h : Llama) (n : nat) (prompt : string)
    (mt : Z) (t p : Q) (stop : option (list string)) : result string :=
  Ok "Hi there".

Definition broken_chat (h : Llama) (n : nat) (msgs : list (string * string))
    (mt : Z) (t p : Q) (stop : option (list string)) : result ChatDict :=
  Raise (EngineError "llama_decode returned -1").

Definition broken_call (h : Llama) (n : nat) (prompt : string)
    (mt : Z) (t p : Q) (stop : option (list string)) : result string :=
  Raise (EngineError "llama_decode returned -1").

(** [HTTPBearer]: it hands over the credential that follows [Bearer] in
    the [Authorization] header when there is a non-empty one, and
    otherwise refuses the request itself, with the status [refusal]. *)
Definition http_bearer (refusal : Z) (authorization : option string)
    : result string :=
  match authorization with
  | Some (String c rest) => Ok (String c rest)
  | _ => Raise (HTTPException refusal "Not authenticated")
  end.

(** The bearer scheme as [tests/test_auth.py] shows it: a request
    without credentials is refused with a 403. Later releases of FastAPI
    refuse it with a 401. *)
Definition bearer : option string -> result string :=
  http_bearer HTTP_403_FORBIDDEN.

(** Random draws for the key generator. *)
Definition counting (i : nat) : nat := i.
Definition striding (i : nat) : nat := (7 * i + 3)%nat.

(** * Properties *)

(** ** Start-up configuration *)



Lemma validate_required_fields_spec (s : Settings) :
  (api_keys s = [] \/ admin_api_key s = "") <->
  exists m, validate_required_fields s = Raise (ValueError m).
Proof.
  unfold validate_required_fields.
  repeat case_bool_decide; split.
  all: try (intros _; eexists; reflexivity).
  all: try tauto.
  intros [m Hm]. discriminate.
Qed.

(** C9, as the code has it: with no API key or no admin key configured,
    [validate_required_fields] raises a [ValueError], but the module body
    catches it: importing the configuration never fails, it keeps the
    settings as they are and issues a warning exactly in that case. *)
Theorem import_module_warns_and_continues (s : Settings) :
  ((api_keys s = [] \/ admin_api_key s = "") <->
     exists m, validate_required_fields s = Raise (ValueError m)) /\
  exists ws, import_module s = Ok {| settings := s; warnings := ws |} /\
             ((api_keys s = [] \/ admin_api_key s = "") <-> ws <> []).
Proof.
  split; [apply validate_required_fields_spec|].
  unfold import_module, validate_required_fields.
  repeat case_bool_decide; eexists; (split; [reflexivity|]); split;
    try discriminate; try tauto; intros _; auto.
Qed.

(** C9, the claim on the code: the default configuration has neither an
    API key nor an admin key, and importing it succeeds with a warning. *)
Lemma import_default_settings_continues :
  api_keys default_settings = [] /\
  admin_api_key default_settings = "" /\
  import_module default_settings =
    Ok {| settings := default_settings;
          warnings :=
            ["Configuration validation failed: " ++ no_api_keys_msg] |}.
Proof. repeat split. Qed.

(** ** Key checks *)

Section AuthFacts.
Import Auth.
Variable settings : Settings.

Lemma verify_api_key_ok (token : string) :
  verify_api_key settings token = Ok token <->
  token <> "" /\ token ∈ api_keys settings.
Proof.
  unfold verify_api_key. repeat case_bool_decide; simpl; split;
    try discriminate; try tauto; intros [? ?]; contradiction.
Qed.

Lemma verify_admin_key_ok (token : string) :
  verify_admin_key settings token = Ok token <->
  token <> "" /\ token = admin_api_key settings.
Proof.
  unfold verify_admin_key. repeat case_bool_decide; simpl; split;
    try discriminate; try tauto; intros [? ?]; contradiction.
Qed.

End AuthFacts.

Lemma hands_over_http_bearer refusal :
  Routes.hands_over_credentials (http_bearer refusal).
Proof.
  intros [[|c rest]|] token; simpl; intros [= <-]. discriminate.
Qed.

(** C5, as the code has it. The bearer scheme hands over only non-empty
    credentials. A request passes a user endpoint exactly when it bears
    a configured key, and one bearing any other key gets a 401. A
    request passes an admin endpoint exactly when it bears the admin
    key, which none does when that key is empty, and one bearing any
    other key (a user key included) gets a 403. A request the scheme
    refuses, for want of credentials, gets the scheme's own error on
    both kinds of endpoint: the 401 "Missing API key" of the two checks
    is never their answer. *)
Theorem key_checks (settings : Settings)
    (security : option string -> result string)
    (authorization : option string) :
  Routes.hands_over_credentials security ->
  (Routes.authenticate settings security Routes.ApiKey authorization = Ok tt <->
     exists token, security authorization = Ok token /\
                   token ∈ api_keys settings) /\
  (forall token, security authorization = Ok token ->
     token ∉ api_keys settings ->
     Routes.authenticate settings security Routes.ApiKey authorization =
       Raise (HTTPException HTTP_401_UNAUTHORIZED "Invalid API key")) /\
  (Routes.authenticate settings security Routes.AdminKey authorization =
     Ok tt <->
     security authorization = Ok (admin_api_key settings)) /\
  (admin_api_key settings = "" ->
     Routes.authenticate settings security Routes.AdminKey authorization <>
       Ok tt) /\
  (forall token, security authorization = Ok token ->
     token <> admin_api_key settings ->
     Routes.authenticate settings security Routes.AdminKey authorization =
       Raise (HTTPException HTTP_403_FORBIDDEN "Admin access required")) /\
  (forall e, security authorization = Raise e ->
     Routes.authenticate settings security Routes.ApiKey authorization =
       Raise e /\
     Routes.authenticate settings security Routes.AdminKey authorization =
       Raise e) /\
  (forall token dependency, security authorization = Ok token ->
     Routes.authenticate settings security dependency authorization <>
       Raise (HTTPException HTTP_401_UNAUTHORIZED "Missing API key")).
Proof.
  intros Hsec. unfold Routes.authenticate, Auth.verify_api_key,
    Auth.verify_admin_key.
  destruct (security authorization) as [token|e] eqn:Htoken.
  - pose proof (Hsec authorization token Htoken) as Hne.
    rewrite (bool_decide_eq_false_2 _ Hne). simpl.
    split; [|split; [|split; [|split; [|split; [|split]]]]].
    + split.
      * intros H. exists token. split; [reflexivity|].
        case_bool_decide; [assumption|discriminate].
      * intros (token' & [= <-] & Hin).
        rewrite (bool_decide_eq_true_2 _ Hin). reflexivity.
    + intros token' [= <-] Hnot.
      rewrite (bool_decide_eq_false_2 _ Hnot). reflexivity.
    + split.
      * intros H. case_bool_decide; [congruence|discriminate].
      * intros [= ->]. rewrite bool_decide_eq_true_2 by reflexivity.
        reflexivity.
    + intros Hempty. case_bool_decide; [congruence|discriminate].
    + intros token' [= <-] Hnot.
      rewrite (bool_decide_eq_false_2 _ Hnot). reflexivity.
    + discriminate.
    + intros token' dependency [= <-]. destruct dependency; simpl;
        [discriminate| |]; case_bool_decide; discriminate.
  - split; [|split; [|split; [|split; [|split; [|split]]]]].
    + split; [discriminate|]. intros (token & Hno & _). discriminate.
    + discriminate.
    + split; discriminate.
    + discriminate.
    + discriminate.
    + intros e' [= <-]. split; reflexivity.
    + discriminate.
Qed.

(** C5, the claim on the code. The admin key of the default
    configuration is empty, and a request bearing it does not pass an
    admin endpoint; the empty string is a key of a list that
    [validate_required_fields] accepts, and a request bearing it does not
    pass a user endpoint; this whether the scheme refuses with a 403 or
    with a 401. And under the scheme of the tests a request without
    credentials gets a 403, not a 401. *)
Lemma configured_empty_keys_rejected :
  admin_api_key default_settings = "" /\
  is_ok (Routes.authenticate default_settings bearer Routes.AdminKey
           (Some (admin_api_key default_settings))) = false /\
  is_ok (Routes.authenticate default_settings
           (http_bearer HTTP_401_UNAUTHORIZED) Routes.AdminKey
           (Some (admin_api_key default_settings))) = false /\
  validate_required_fields blank_key_settings = Ok tt /\
  "" ∈ api_keys blank_key_settings /\
  is_ok (Routes.authenticate blank_key_settings bearer Routes.ApiKey
           (Some "")) = false /\
  is_ok (Routes.authenticate blank_key_settings
           (http_bearer HTTP_401_UNAUTHORIZED) Routes.ApiKey
           (Some "")) = false /\
  Routes.authenticate test_settings bearer Routes.ApiKey None =
    Raise (HTTPException HTTP_403_FORBIDDEN "Not authenticated") /\
  Routes.authenticate test_settings bearer Routes.AdminKey None =
    Raise (HTTPException HTTP_403_FORBIDDEN "Not authenticated").
Proof.
  repeat split. simpl. apply list_elem_of_here.
Qed.

(** ** Request validation *)


Lemma float_in_spec (lo hi x : Q) :
  float_in lo hi x = true <-> (lo <= x)%Q /\ (x <= hi)%Q.
Proof.
  unfold float_in. rewrite andb_true_iff, !Qle_bool_iff. reflexivity.
Qed.

Lemma int_in_spec (lo hi x : Z) :
  int_in lo hi x = true <-> (lo <= x <= hi)%Z.
Proof. unfold int_in. rewrite andb_true_iff, !Z.leb_le. reflexivity. Qed.

Lemma message_errors_nil (msgs : list Message) : forall i,
  message_errors i msgs = [] <->
  Forall (fun msg => role msg ∈ role_literals) msgs.
Proof.
  induction msgs as [|msg rest IH]; intros i; simpl.
  - split; [constructor|reflexivity].
  - case_bool_decide as Hrole; simpl.
    + rewrite IH. split; [constructor; assumption|].
      intros H. apply Forall_cons in H as [_ H]. exact H.
    + split; [discriminate|]. intros H.
      apply Forall_cons in H as [H _]. contradiction.
Qed.

Lemma field_errors_nil (r : ChatCompletionRequest) :
  field_errors r = [] <->
  Forall (fun msg => role msg ∈ role_literals) (messages r) /\
  float_in 0 2 (temperature r) = true /\
  int_in 1 32000 (max_tokens r) = true /\
  float_in 0 1 (top_p r) = true.
Proof.
  unfold field_errors. rewrite <- (message_errors_nil (messages r) 0).
  destruct (message_errors 0 (messages r)) as [|e errs]; simpl.
  - destruct (float_in 0 2 _), (int_in 1 32000 _), (float_in 0 1 _); simpl;
      split; try discriminate; try tauto; intros (_ & ? & ? & ?);
      discriminate.
  - split; [discriminate|]. intros (H & _). discriminate.
Qed.

(** C6, as the code has it: a request whose fields are well-typed (with
    finite floats) is accepted exactly when every message carries one of
    the roles system, user and assistant and [temperature] is in [0,2],
    [max_tokens] in [1,32000] and [top_p] in [0,1]; otherwise validation
    fails and the answer is a 422. At the boundaries: [max_tokens=0] is
    rejected and [max_tokens=1] accepted, [temperature=2.0] is accepted
    and [temperature=2.01] rejected. *)
Theorem validate_ranges (r : ChatCompletionRequest) :
  (validate r = Ok r <->
     Forall (fun msg => role msg ∈ role_literals) (messages r) /\
     ((0 <= temperature r)%Q /\ (temperature r <= 2)%Q) /\
     (1 <= max_tokens r <= 32000)%Z /\
     ((0 <= top_p r)%Q /\ (top_p r <= 1)%Q)) /\
  (validate r = Ok r \/
   exists errs, errs <> [] /\ validate r = Raise (ValidationError errs) /\
     Routes.request_body r = Raise (RequestValidationError errs) /\
     Routes.respond (Raise (RequestValidationError errs)) =
       {| Routes.status_code := HTTP_422_UNPROCESSABLE_ENTITY;
          Routes.body := Routes.ValidationBody errs |}) /\
  is_ok (validate (hello_request (7 # 10) 0 1)) = false /\
  is_ok (validate (hello_request (7 # 10) 1 1)) = true /\
  is_ok (validate (hello_request 2 100 1)) = true /\
  is_ok (validate (hello_request (201 # 100) 100 1)) = false.
Proof.
  split; [|split; [|repeat split]].
  - rewrite <- !float_in_spec, <- int_in_spec, <- field_errors_nil.
    unfold validate. destruct (field_errors r); split; congruence.
  - unfold Routes.request_body, validate.
    destruct (field_errors r) as [|e errs]; [left; reflexivity|].
    right. exists (e :: errs). repeat split. discriminate.
Qed.

(** C6, the claim on the code: the three parameters of this request are
    within the ranges, and it is rejected with a 422 for the role of its
    message. *)
Lemma bogus_role_rejected :
  ((0 <= temperature bogus_role_request)%Q /\
   (temperature bogus_role_request <= 2)%Q) /\
  (1 <= max_tokens bogus_role_request <= 32000)%Z /\
  ((0 <= top_p bogus_role_request)%Q /\ (top_p bogus_role_request <= 1)%Q) /\
  validate bogus_role_request = Raise (ValidationError ["messages.0.role"]) /\
  Routes.request_body bogus_role_request =
    Raise (RequestValidationError ["messages.0.role"]) /\
  Routes.respond (Raise (RequestValidationError ["messages.0.role"])) =
    {| Routes.status_code := HTTP_422_UNPROCESSABLE_ENTITY;
       Routes.body := Routes.ValidationBody ["messages.0.role"] |}.
Proof.
  repeat split; try (simpl; lia); try discriminate.
Qed.

(** With a key that passes, a request that fails validation is answered
    with a 422 and the manager is not touched. *)
Lemma post_chat_completions_invalid settings path_exists Llama_init chat
    security authorization uuid_hex now (r : ChatCompletionRequest) w :
  Routes.authenticate settings security
    (Routes.depends Routes.ChatCompletions) authorization = Ok tt ->
  validate r <> Ok r ->
  exists errs,
    Routes.post_chat_completions settings path_exists Llama_init chat
      security authorization uuid_hex now r w =
    Some ({| Routes.status_code := HTTP_422_UNPROCESSABLE_ENTITY;
             Routes.body := Routes.ValidationBody errs |}, w).
Proof.
  intros Hauth Hbad. unfold Routes.post_chat_completions.
  rewrite Hauth. unfold Routes.request_body. revert Hbad. unfold validate.
  destruct (field_errors r) as [|e errs]; [congruence|].
  intros _. exists (e :: errs). reflexivity.
Qed.

(** ** Health check *)

(** C8: [GET /health] has no authentication dependency: whatever the
    [Authorization] header, whatever the bearer scheme does with it and
    whatever the state of the manager, the answer is a 200 carrying
    [status = "ok"] and [model_loaded = is_loaded()]; with no model
    loaded it carries [model_loaded = false]. *)
Theorem health_always_ok (settings : Settings)
    (security : option string -> result string)
    (authorization : option string) (w : World) :
  Routes.depends Routes.Health = Routes.NoAuth /\
  Routes.get_health settings security authorization w =
    {| Routes.status_code := HTTP_200_OK;
       Routes.body := Routes.HealthBody
         {| status := "ok"; model_loaded := is_loaded w |} |} /\
  (_llm (manager w) = None <-> is_loaded w = false).
Proof.
  split; [reflexivity|]. split; [reflexivity|].
  unfold is_loaded. destruct (_llm (manager w)); split; congruence.
Qed.

(** ** The manager, one coroutine at a time *)

Section ManagerFacts.
Variable settings : Settings.
Variable path_exists : nat -> bool.
Variable Llama_init : nat -> option string.
Variable completion_dict : Type.
Variable llama_call :
  Llama -> nat -> string -> Z -> Q -> Q -> option (list string) ->
  result completion_dict.
Variable llama_create_chat_completion :
  Llama -> nat -> list (string * string) -> Z -> Q -> Q ->
  option (list string) -> result ChatDict.

Abbreviation load_result := (load_result settings path_exists Llama_init).
Abbreviation get_llm := (get_llm settings path_exists Llama_init).
Abbreviation reload_model := (reload_model settings path_exists Llama_init).
Abbreviation generate_completion :=
  (generate_completion settings path_exists Llama_init completion_dict
     llama_call).
Abbreviation create_chat_completion :=
  (create_chat_completion settings path_exists Llama_init
     llama_create_chat_completion).
Abbreviation acquisitions :=
  (acquisitions settings path_exists Llama_init completion_dict llama_call
     llama_create_chat_completion).

Ltac world w := destruct w as [[? ? ?] ? ?]; simpl in *; subst; simpl.

Lemma load_result_raise n e :
  load_result n = Raise e -> exists m, e = RuntimeError m.
Proof.
  unfold Llm.load_result.
  destruct (path_exists n); simpl; [destruct (Llama_init n)|];
    intros [= <-]; eauto.
Qed.

Lemma load_result_ok n h :
  load_result n = Ok h -> h = {| llama_id := n |}.
Proof.
  unfold Llm.load_result.
  destruct (path_exists n); simpl; [destruct (Llama_init n)|];
    congruence.
Qed.

Lemma get_llm_loaded w h :
  _llm (manager w) = Some h -> get_llm w = Some (Ok (Some h), w).
Proof.
  intros H. unfold Llm.get_llm, bind, get, ret. simpl. rewrite H. simpl.
  rewrite H. reflexivity.
Qed.

Lemma get_llm_load_ok w h :
  _llm (manager w) = None -> _lock (manager w) = false ->
  load_result (loads w) = Ok h ->
  get_llm w = Some (Ok (Some h), set_llm (Some h) (count_load w)).
Proof.
  intros H1 H2 H3.
  unfold Llm.get_llm, async_with_lock, _load_model, bind, get, modify, ret.
  world w. rewrite H3. reflexivity.
Qed.

Lemma get_llm_load_fails w e :
  _llm (manager w) = None -> _lock (manager w) = false ->
  load_result (loads w) = Raise e ->
  get_llm w = Some (Raise e, count_load w).
Proof.
  intros H1 H2 H3.
  unfold Llm.get_llm, async_with_lock, _load_model, bind, get, modify, ret.
  world w. rewrite H3. reflexivity.
Qed.

Lemma get_llm_blocked w :
  _llm (manager w) = None -> _lock (manager w) = true -> get_llm w = None.
Proof.
  intros H1 H2.
  unfold Llm.get_llm, async_with_lock, bind, get. world w. reflexivity.
Qed.

Lemma reload_model_ok w h :
  _lock (manager w) = false -> load_result (loads w) = Ok h ->
  reload_model w = Some (Ok tt, set_llm (Some h) (count_load w)).
Proof.
  intros H2 H3.
  unfold Llm.reload_model, async_with_lock, _load_model, bind, get, modify, ret.
  world w. destruct _llm0; simpl; rewrite H3; reflexivity.
Qed.

Lemma reload_model_fails w e :
  _lock (manager w) = false -> load_result (loads w) = Raise e ->
  reload_model w = Some (Raise e, set_llm None (count_load w)).
Proof.
  intros H2 H3.
  unfold Llm.reload_model, async_with_lock, _load_model, bind, get, modify, ret.
  world w. destruct _llm0; simpl; rewrite H3; reflexivity.
Qed.

Lemma reload_model_blocked w :
  _lock (manager w) = true -> reload_model w = None.
Proof.
  intros H. unfold Llm.reload_model, async_with_lock. rewrite H. reflexivity.
Qed.


Lemma get_llm_returns w h w1 :
  get_llm w = Some (Ok (Some h), w1) -> _llm (manager w1) = Some h.
Proof.
  destruct (_llm (manager w)) as [h0|] eqn:Hllm.
  - rewrite (get_llm_loaded w h0 Hllm). intros [= <- <-]. exact Hllm.
  - destruct (_lock (manager w)) eqn:Hlock.
    + rewrite get_llm_blocked by assumption. discriminate.
    + destruct (load_result (loads w)) as [h1|e] eqn:Hload.
      * rewrite (get_llm_load_ok w h1) by assumption.
        intros [= <- <-]. reflexivity.
      * rewrite (get_llm_load_fails w e) by assumption. discriminate.
Qed.

Lemma generate_completion_after w h w1 prompt mt t p stop :
  get_llm w = Some (Ok (Some h), w1) ->
  generate_completion prompt mt t p stop w =
    Some (match llama_call h (calls w1) prompt mt t p stop with
          | Ok d => Ok d
          | Raise e => Raise (RuntimeError ("Generation failed: " ++ str e))
          end, count_call w1).
Proof.
  intros H. unfold Llm.generate_completion, bind, try_except, raise.
  rewrite H. destruct (llama_call h (calls w1) prompt mt t p stop); reflexivity.
Qed.

Lemma create_chat_completion_after w h w1 msgs mt t p stop :
  get_llm w = Some (Ok (Some h), w1) ->
  create_chat_completion msgs mt t p stop w =
    Some (match llama_create_chat_completion h (calls w1) msgs mt t p stop with
          | Ok d => Ok d
          | Raise e =>
              Raise (RuntimeError ("Chat completion failed: " ++ str e))
          end, count_call w1).
Proof.
  intros H. unfold Llm.create_chat_completion, bind, try_except, raise.
  rewrite H.
  destruct (llama_create_chat_completion h (calls w1) msgs mt t p stop);
    reflexivity.
Qed.

Lemma acquisitions_loaded cs : forall w h,
  _llm (manager w) = Some h ->
  acquisitions cs w = replicate (count_acquire cs) (Ok (Some h)).
Proof.
  induction cs as [|c cs IH]; intros w h Hllm; [reflexivity|].
  pose proof (get_llm_loaded w h Hllm) as Hget.
  destruct c as [|prompt mt t p stop|msgs mt t p stop]; simpl.
  - rewrite Hget. f_equal. apply IH, Hllm.
  - rewrite (generate_completion_after w h w) by exact Hget.
    apply IH, Hllm.
  - rewrite (create_chat_completion_after w h w) by exact Hget.
    apply IH, Hllm.
Qed.

Lemma handle_known_start : handle_known start.
Proof. intros h. discriminate. Qed.

Lemma handle_known_get_llm w r w' :
  handle_known w -> get_llm w = Some (r, w') -> handle_known w'.
Proof.
  intros Hk.
  destruct (_llm (manager w)) as [h0|] eqn:Hllm.
  - rewrite (get_llm_loaded w h0 Hllm). intros [= <- <-]. exact Hk.
  - destruct (_lock (manager w)) eqn:Hlock.
    + rewrite get_llm_blocked by assumption. discriminate.
    + destruct (load_result (loads w)) as [h1|e] eqn:Hload.
      * rewrite (get_llm_load_ok w h1) by assumption.
        intros [= <- <-] h [= <-].
        rewrite (load_result_ok _ _ Hload). simpl. lia.
      * rewrite (get_llm_load_fails w e) by assumption.
        intros [= <- <-] h. simpl. rewrite Hllm. discriminate.
Qed.

Lemma handle_known_reload_model w r w' :
  handle_known w -> reload_model w = Some (r, w') -> handle_known w'.
Proof.
  intros Hk.
  destruct (_lock (manager w)) eqn:Hlock.
  - rewrite reload_model_blocked by assumption. discriminate.
  - destruct (load_result (loads w)) as [h1|e] eqn:Hload.
    + rewrite (reload_model_ok w h1) by assumption.
      intros [= <- <-] h [= <-].
      rewrite (load_result_ok _ _ Hload). simpl. lia.
    + rewrite (reload_model_fails w e) by assumption.
      intros [= <- <-] h. discriminate.
Qed.

(** C4: when the load started by [get_llm] on an unloaded manager
    fails, the caller gets the [RuntimeError], the manager is as it was
    (no handle, lock free), and the next [get_llm] calls [_load_model]
    again: its outcome is the outcome of that new load. *)
Theorem get_llm_failed_load_retries (w : World) (e : exn) :
  _llm (manager w) = None -> _lock (manager w) = false ->
  load_result (loads w) = Raise e ->
  (exists m, e = RuntimeError m) /\
  get_llm w = Some (Raise e, count_load w) /\
  manager (count_load w) = manager w /\
  is_loaded (count_load w) = false /\
  get_llm (count_load w) =
    Some (match load_result (S (loads w)) with
          | Ok h => (Ok (Some h),
                     set_llm (Some h) (count_load (count_load w)))
          | Raise e' => (Raise e', count_load (count_load w))
          end).
Proof.
  intros Hllm Hlock Hload.
  split; [eapply load_result_raise; eassumption|].
  split; [apply get_llm_load_fails; assumption|].
  split; [reflexivity|].
  split; [unfold is_loaded; simpl; rewrite Hllm; reflexivity|].
  destruct (load_result (S (loads w))) as [h|e'] eqn:Hnext.
  - apply get_llm_load_ok; assumption.
  - apply get_llm_load_fails; assumption.
Qed.

(** C2: when the load made by [reload_model] fails, the caller gets the
    [RuntimeError] and the manager is left without a handle, whatever
    it held before: [is_loaded()] is false. *)
Theorem reload_failure_unloads (w : World) (e : exn) :
  _lock (manager w) = false ->
  load_result (loads w) = Raise e ->
  exists w',
    reload_model w = Some (Raise e, w') /\
    (exists m, e = RuntimeError m) /\
    _llm (manager w') = None /\
    is_loaded w' = false /\
    _lock (manager w') = false.
Proof.
  intros Hlock Hload. exists (set_llm None (count_load w)).
  split; [apply reload_model_fails; assumption|].
  split; [eapply load_result_raise; eassumption|].
  repeat split. exact Hlock.
Qed.

(** C3: after [reload_model] has returned normally, the manager holds
    the handle built by that load, which is not the handle held before,
    and every later [get_llm], whatever generation calls come in
    between, returns that new handle. *)
Theorem reload_then_get_llm (w w' : World) :
  handle_known w ->
  reload_model w = Some (Ok tt, w') ->
  exists h,
    h = {| llama_id := loads w |} /\
    _llm (manager w') = Some h /\
    _llm (manager w) <> Some h /\
    get_llm w' = Some (Ok (Some h), w') /\
    forall cs, acquisitions cs w' = replicate (count_acquire cs) (Ok (Some h)).
Proof.
  intros Hk.
  destruct (_lock (manager w)) eqn:Hlock.
  { rewrite reload_model_blocked by assumption. discriminate. }
  destruct (load_result (loads w)) as [h|e] eqn:Hload.
  2:{ rewrite (reload_model_fails w e) by assumption. discriminate. }
  rewrite (reload_model_ok w h) by assumption. intros [= <-].
  pose proof (load_result_ok _ _ Hload) as ->.
  eexists. split; [reflexivity|].
  split; [reflexivity|].
  split.
  { intros Hold. apply Hk in Hold. simpl in Hold. lia. }
  split; [apply get_llm_loaded; reflexivity|].
  intros cs. apply acquisitions_loaded. reflexivity.
Qed.

(** C10: once [get_llm] has handed out a handle, a generation call
    leaves it in place whether the engine returns or raises: the call
    completes, an engine failure comes out as a [RuntimeError], and
    afterwards the manager still holds that handle and [is_loaded()] is
    true. *)
Theorem generation_keeps_handle (w w1 : World) (h : Llama)
    (prompt : string) (msgs : list (string * string))
    (mt : Z) (t p : Q) (stop : option (list string)) :
  get_llm w = Some (Ok (Some h), w1) ->
  generate_completion prompt mt t p stop w =
    Some (match llama_call h (calls w1) prompt mt t p stop with
          | Ok d => Ok d
          | Raise e => Raise (RuntimeError ("Generation failed: " ++ str e))
          end, count_call w1) /\
  create_chat_completion msgs mt t p stop w =
    Some (match llama_create_chat_completion h (calls w1) msgs mt t p stop with
          | Ok d => Ok d
          | Raise e =>
              Raise (RuntimeError ("Chat completion failed: " ++ str e))
          end, count_call w1) /\
  _llm (manager w1) = Some h /\
  manager (count_call w1) = manager w1 /\
  is_loaded (count_call w1) = true /\
  get_llm (count_call w1) = Some (Ok (Some h), count_call w1).
Proof.
  intros Hget. pose proof (get_llm_returns _ _ _ Hget) as Hllm.
  split; [apply generate_completion_after; exact Hget|].
  split; [apply create_chat_completion_after; exact Hget|].
  split; [exact Hllm|]. split; [reflexivity|].
  split; [unfold is_loaded; simpl; rewrite Hllm; reflexivity|].
  apply get_llm_loaded. exact Hllm.
Qed.

End ManagerFacts.

(** The admin route turns a failed reload into a 500; the manager is left
    without a handle. *)
Lemma reload_route_failure settings path_exists Llama_init (w : World) e :
  _lock (manager w) = false ->
  load_result settings path_exists Llama_init (loads w) = Raise e ->
  Routes.reload_model settings path_exists Llama_init w =
    Some (Raise (HTTPException HTTP_500_INTERNAL_SERVER_ERROR
                   ("Model reload failed: " ++ str e)),
          set_llm None (count_load w)).
Proof.
  intros Hlock Hload. unfold Routes.reload_model, try_except, bind.
  rewrite (reload_model_fails settings path_exists Llama_init w e Hlock Hload).
  reflexivity.
Qed.

(** ** The chat route *)


Section RouteFacts.
Variable settings : Settings.
Variable path_exists : nat -> bool.
Variable Llama_init : nat -> option string.
Variable llama_create_chat_completion :
  Llama -> nat -> list (string * string) -> Z -> Q -> Q ->
  option (list string) -> result ChatDict.

Abbreviation route :=
  (Routes.create_chat_completion settings path_exists Llama_init
     llama_create_chat_completion).

Lemma route_after_engine w w1 h uuid_hex now request fixed :
  get_llm settings path_exists Llama_init w = Some (Ok (Some h), w1) ->
  llama_create_chat_completion h (calls w1)
    (map (fun msg => (role msg, content msg)) (messages request))
    (max_tokens request) (temperature request) (top_p request)
    (stop request) = Ok fixed ->
  route uuid_hex now request w =
    match d_choices fixed with
    | [] => Some (Raise (HTTPException HTTP_500_INTERNAL_SERVER_ERROR
                           "Unexpected error: list index out of range"),
                  count_call w1)
    | c0 :: _ =>
        if bool_decide (d_role (d_message c0) ∈ role_literals) then
          if bool_decide (default "stop" (d_finish_reason c0)
                            ∈ finish_reason_literals) then
            Some (Ok {| id := "chatcmpl-" ++ String.substring 0 12 uuid_hex;
                        object := "chat.completion";
                        created := now;
                        response_model := model_name settings;
                        choices :=
                          [ {| index := 0;
                               message :=
                                 {| role := d_role (d_message c0);
                                    content := d_content (d_message c0) |};
                               finish_reason :=
                                 default "stop" (d_finish_reason c0) |} ];
                        usage :=
                          {| prompt_tokens := d_prompt_tokens (d_usage fixed);
                             completion_tokens :=
                               d_completion_tokens (d_usage fixed);
                             total_tokens := d_total_tokens (d_usage fixed) |}
                     |}, count_call w1)
          else Some (Raise (HTTPException HTTP_500_INTERNAL_SERVER_ERROR
                              "Unexpected error: finish_reason"),
                     count_call w1)
        else Some (Raise (HTTPException HTTP_500_INTERNAL_SERVER_ERROR
                            "Unexpected error: role"),
                   count_call w1)
    end.
Proof.
  intros Hget Hengine.
  unfold Routes.create_chat_completion, try_except, bind.
  rewrite (create_chat_completion_after settings path_exists Llama_init
             llama_create_chat_completion w h w1) by exact Hget.
  rewrite Hengine.
  destruct (d_choices fixed) as [|c0 rest]; [reflexivity|].
  unfold ret, Routes.lift, mk_Message, mk_Choice.
  repeat case_bool_decide; reflexivity.
Qed.

(** C7: when the manager has a handle to give and the engine answers
    the request with the dict [fixed], the route returns an envelope
    exactly when [fixed] renders, and an envelope it returns carries
    the engine's first choice (role, content, finish reason) and the
    engine's three usage counts unchanged; so [total_tokens] is the sum
    of the other two whenever that holds of the engine's counts. *)
Theorem chat_envelope_copies_engine (w w1 : World) (h : Llama)
    (uuid_hex : string) (now : Z) (request : ChatCompletionRequest)
    (fixed : ChatDict) :
  get_llm settings path_exists Llama_init w = Some (Ok (Some h), w1) ->
  llama_create_chat_completion h (calls w1)
    (map (fun msg => (role msg, content msg)) (messages request))
    (max_tokens request) (temperature request) (top_p request)
    (stop request) = Ok fixed ->
  (Routes.renders fixed <->
     exists env, route uuid_hex now request w = Some (Ok env, count_call w1)) /\
  (forall env w',
     route uuid_hex now request w = Some (Ok env, w') ->
     Routes.carries env fixed /\
     (d_total_tokens (d_usage fixed) =
        d_prompt_tokens (d_usage fixed) + d_completion_tokens (d_usage fixed) ->
      total_tokens (usage env) =
        prompt_tokens (usage env) + completion_tokens (usage env))).
Proof.
  intros Hget Hengine.
  rewrite (route_after_engine w w1 h uuid_hex now request fixed Hget Hengine).
  unfold Routes.renders, Routes.carries.
  destruct (d_choices fixed) as [|c0 rest].
  { split; [split; [tauto|intros [env [=]]]|intros env w' [=]]. }
  repeat case_bool_decide.
  - split; [split; eauto|].
    intros env w' [= <- <-]. simpl. split; [|tauto].
    eexists _, _, _. repeat split.
  - split; [split; [tauto|intros [env [=]]]|intros env w' [=]].
  - split; [split; [tauto|intros [env [=]]]|intros env w' [=]].
Qed.

End RouteFacts.

(** ** Concurrent callers *)

Section ConcurrencyFacts.
Variable settings : Settings.
Variable path_exists : nat -> bool.
Variable Llama_init : nat -> option string.

Abbreviation load_result := (load_result settings path_exists Llama_init).
Abbreviation step_pc := (step_pc settings path_exists Llama_init).
Abbreviation step := (step settings path_exists Llama_init).
Abbreviation run := (run settings path_exists Llama_init).
Abbreviation run_task := (run_task settings path_exists Llama_init).

#[local] Open Scope nat_scope.

(** *** Counting tasks *)

Lemma weigh_insert f (l : list pc) i p p' :
  l !! i = Some p ->
  (weigh f (<[i := p']> l) + f p = weigh f l + f p')%nat.
Proof.
  revert i. induction l as [|q l IH]; intros [|i] H; simpl in *;
    try discriminate.
  - injection H as ->. lia.
  - specialize (IH i H). lia.
Qed.

Lemma weigh_lookup f (l : list pc) i p :
  l !! i = Some p -> (f p <= weigh f l)%nat.
Proof.
  revert i. induction l as [|q l IH]; intros [|i] H; simpl in *;
    try discriminate.
  - injection H as ->. lia.
  - specialize (IH i H). lia.
Qed.

Lemma weigh_le f g (l : list pc) :
  (forall p, (f p <= g p)%nat) -> (weigh f l <= weigh g l)%nat.
Proof.
  intros H. induction l as [|q l IH]; simpl; [lia|]. specialize (H q). lia.
Qed.

Lemma weigh_add f g (l : list pc) :
  weigh (fun p => (f p + g p)%nat) l = (weigh f l + weigh g l)%nat.
Proof. induction l as [|q l IH]; simpl; lia. Qed.

Lemma weigh_pos f (l : list pc) :
  (0 < weigh f l)%nat -> exists i p, l !! i = Some p /\ (0 < f p)%nat.
Proof.
  induction l as [|q l IH]; simpl; [lia|]. intros H.
  destruct (Nat.eq_dec (f q) 0) as [Hq|Hq].
  - destruct IH as (i & p & Hi & Hp); [lia|]. exists (S i), p. auto.
  - exists O, q. split; [reflexivity|lia].
Qed.

Lemma weigh_zero f (l : list pc) :
  weigh f l = O -> Forall (fun p => f p = O) l.
Proof.
  induction l as [|q l IH]; simpl; intros H; constructor; [lia|].
  apply IH. lia.
Qed.

Lemma weigh_ext f g (l : list pc) :
  (forall p, f p = g p) -> weigh f l = weigh g l.
Proof.
  intros H. induction l as [|q l IH]; simpl; [reflexivity|].
  rewrite H, IH. reflexivity.
Qed.

Lemma count_insert f (l : list pc) i p p' :
  l !! i = Some p ->
  count f (<[i := p']> l) + (if f p then 1 else 0) =
  count f l + (if f p' then 1 else 0).
Proof.
  intros H. unfold count.
  exact (weigh_insert (fun q => if f q then 1 else 0) l i p p' H).
Qed.


Lemma count_holding_split (l : list pc) :
  count holding l = count loading l + count idle_holder l.
Proof.
  unfold count. rewrite <- weigh_add. apply weigh_ext.
  intros p. destruct p; reflexivity.
Qed.

Lemma count_loading_le_holding (l : list pc) :
  count loading l <= count holding l.
Proof. rewrite count_holding_split. lia. Qed.

Lemma count_lookup f (l : list pc) i p :
  l !! i = Some p -> f p = true -> 1 <= count f l.
Proof.
  intros H Hf. unfold count.
  pose proof (weigh_lookup (fun p => if f p then 1 else 0) l i p H) as Hle.
  simpl in Hle. rewrite Hf in Hle. exact Hle.
Qed.

(** *** Steps *)

Lemma step_Some i s s' :
  step i s = Some s' ->
  exists p p' w', tasks s !! i = Some p /\
                  step_pc p (world s) = Some (p', w') /\
                  s' = {| world := w'; tasks := <[i := p']> (tasks s) |}.
Proof.
  unfold Llm.step. destruct (tasks s !! i) as [p|] eqn:Hp; [|discriminate].
  destruct (step_pc p (world s)) as [[p' w']|] eqn:Hpc; [|discriminate].
  intros [= <-]. exists p, p', w'. auto.
Qed.

Lemma run_cons i schedule s s' :
  step i s = Some s' -> run (i :: schedule) s = run schedule s'.
Proof. intros H. simpl. rewrite H. reflexivity. Qed.

Lemma run_app a b s : run (a ++ b) s = run b (run a s).
Proof. revert s. induction a as [|i a IH]; intros s; simpl; auto. Qed.

(** Case analysis on a statement [H : step_pc p w = Some (p', w')]. *)
Ltac step_cases H :=
  match type of H with
  | Llm.step_pc _ _ _ ?p ?w = _ =>
      destruct w as [[? ? ?] ? ?]; destruct p; simpl in H;
      repeat match type of H with
             | context [match ?x with _ => _ end] => destruct x eqn:?
             end;
      simplify_eq; simpl in *
  end.

(** *** The lock is held by exactly one task, or by none *)


Lemma lock_inv_step i s s' :
  lock_inv s -> step i s = Some s' -> lock_inv s'.
Proof.
  unfold lock_inv. intros Hinv Hstep.
  destruct (step_Some _ _ _ Hstep) as (p & p' & w' & Hp & Hpc & ->).
  pose proof (count_insert holding _ i p p' Hp) as Hc.
  pose proof (count_lookup holding _ i p Hp) as Hone.
  destruct s as [w l]. simpl in *.
  step_cases Hpc; try specialize (Hone eq_refl);
    repeat match goal with
           | H : context [if ?b then _ else _] |- _ => destruct b
           end; lia.
Qed.

Lemma lock_inv_run schedule s : lock_inv s -> lock_inv (run schedule s).
Proof.
  revert s. induction schedule as [|i rest IH]; intros s H; simpl; [exact H|].
  apply IH. destruct (step i s) as [s'|] eqn:Hstep; simpl; [|exact H].
  eapply lock_inv_step; eassumption.
Qed.

Lemma count_replicate_G40 f n : f G40 = false -> count f (replicate n G40) = 0.
Proof.
  intros H. unfold count. induction n as [|n IH]; simpl; [reflexivity|].
  rewrite H, IH. reflexivity.
Qed.

Lemma lock_inv_callers n w :
  _lock (manager w) = false -> lock_inv (callers n w).
Proof.
  intros H. unfold lock_inv, callers. simpl. rewrite H.
  apply count_replicate_G40. reflexivity.
Qed.

(** At any moment at most one task is inside [_load_model]. *)
Lemma loads_never_overlap s :
  lock_inv s -> count loading (tasks s) <= 1.
Proof.
  unfold lock_inv. intros H.
  pose proof (count_loading_le_holding (tasks s)).
  destruct (_lock (manager (world s))); lia.
Qed.

(** *** No deadlock, and every run can be completed *)

Lemma unfinished_exists (l : list pc) :
  forallb finished l = false ->
  exists i p, l !! i = Some p /\ finished p = false.
Proof.
  induction l as [|q l IH]; simpl; [discriminate|].
  destruct (finished q) eqn:Hq; simpl.
  - intros H. destruct (IH H) as (i & p & Hi & Hp). exists (S i), p. auto.
  - intros _. exists 0, q. auto.
Qed.

Lemma holder_exists (l : list pc) :
  1 <= count holding l -> exists i p, l !! i = Some p /\ holding p = true.
Proof.
  unfold count. intros H.
  destruct (weigh_pos _ l H) as (i & p & Hi & Hp).
  exists i, p. split; [exact Hi|]. destruct (holding p); [reflexivity|lia].
Qed.

Lemma holder_can_step p w :
  holding p = true -> exists r, step_pc p w = Some r.
Proof.
  destruct p; simpl; try discriminate; intros _; eauto.
  all: repeat match goal with
              | |- context [match ?x with _ => _ end] => destruct x
              end; eauto.
Qed.

Lemma free_can_step p w :
  _lock (manager w) = false -> finished p = false ->
  exists r, step_pc p w = Some r.
Proof.
  intros Hlock. destruct p; simpl; try discriminate; intros _;
    rewrite ?Hlock; eauto.
  all: repeat match goal with
              | |- context [match ?x with _ => _ end] => destruct x
              end; eauto.
Qed.

Lemma progress s :
  lock_inv s -> all_finished s = false -> exists i s', step i s = Some s'.
Proof.
  unfold lock_inv, all_finished. intros Hinv Hfin.
  assert (exists i p r, tasks s !! i = Some p /\ step_pc p (world s) = Some r)
    as (i & p & [p' w'] & Hp & Hpc).
  { destruct (_lock (manager (world s))) eqn:Hlock.
    - destruct (holder_exists (tasks s)) as (i & p & Hp & Hh); [lia|].
      destruct (holder_can_step p (world s) Hh) as [r Hr]. eauto.
    - destruct (unfinished_exists _ Hfin) as (i & p & Hp & Hf).
      destruct (free_can_step p (world s) Hlock Hf) as [r Hr]. eauto. }
  exists i. unfold Llm.step. rewrite Hp, Hpc. eauto.
Qed.

Lemma step_pc_remaining p w p' w' :
  step_pc p w = Some (p', w') -> remaining p' < remaining p.
Proof.
  destruct p; simpl; intros H;
    repeat match type of H with
           | context [match ?x with _ => _ end] => destruct x
           end; simplify_eq; simpl; lia.
Qed.

Lemma step_remaining i s s' :
  step i s = Some s' ->
  weigh remaining (tasks s') < weigh remaining (tasks s).
Proof.
  intros Hstep.
  destruct (step_Some _ _ _ Hstep) as (p & p' & w' & Hp & Hpc & ->).
  pose proof (weigh_insert remaining _ i p p' Hp).
  pose proof (step_pc_remaining _ _ _ _ Hpc). simpl. lia.
Qed.

Lemma remaining_zero (l : list pc) :
  weigh remaining l = 0 -> forallb finished l = true.
Proof.
  intros H. apply weigh_zero in H. induction H as [|p l Hp _ IH]; simpl;
    [reflexivity|].
  rewrite IH. destruct p; simpl in *; try discriminate; reflexivity.
Qed.

Lemma run_completes m : forall s,
  lock_inv s -> weigh remaining (tasks s) <= m ->
  exists schedule, all_finished (run schedule s) = true.
Proof.
  induction m as [|m IH]; intros s Hinv Hm.
  - exists []. simpl. apply remaining_zero. lia.
  - destruct (all_finished s) eqn:Hfin; [exists []; exact Hfin|].
    destruct (progress s Hinv Hfin) as (i & s' & Hstep).
    pose proof (step_remaining _ _ _ Hstep).
    destruct (IH s') as [schedule Hs];
      [eapply lock_inv_step; eassumption|lia|].
    exists (i :: schedule). rewrite (run_cons _ _ _ _ Hstep). exact Hs.
Qed.

Lemma length_tasks_run schedule : forall s,
  length (tasks (run schedule s)) = length (tasks s).
Proof.
  induction schedule as [|i rest IH]; intros s; simpl; [reflexivity|].
  rewrite IH. destruct (step i s) as [s'|] eqn:Hstep; simpl; [|reflexivity].
  destruct (step_Some _ _ _ Hstep) as (p & p' & w' & _ & _ & ->).
  simpl. apply length_insert.
Qed.

(** *** One load for all the callers *)

Section Once.
Variable L0 : nat.
Variable h0 : Llama.
Hypothesis first_ok : load_result L0 = Ok h0.

Lemma early_late p : early L0 p -> late h0 p.
Proof. destruct p; simpl; tauto. Qed.

Lemma once_inv_step i s s' :
  once_inv L0 h0 s -> step i s = Some s' -> once_inv L0 h0 s'.
Proof.
  intros [Hlock Hinv] Hstep.
  split; [eapply lock_inv_step; eassumption|].
  destruct (step_Some _ _ _ Hstep) as (p & p' & w' & Hp & Hpc & ->).
  clear Hstep. unfold lock_inv in Hlock.
  pose proof (count_insert loading _ i p p' Hp) as Hcl.
  pose proof (count_holding_split (tasks s)) as Hsplit.
  pose proof (count_lookup idle_holder _ i p Hp) as Hidle.
  pose proof (count_lookup loading _ i p Hp) as Hload.
  destruct s as [[[llm lock ld] n c] l]. simpl in *.
  destruct llm as [h|].
  - destruct Hinv as (-> & -> & Hzero & Hall).
    pose proof (Forall_lookup_1 _ _ _ _ Hall Hp) as Hlate.
    destruct p; simpl in *; try contradiction;
      try (specialize (Hload eq_refl); lia);
      repeat match type of Hpc with
             | context [match ?x with _ => _ end] => destruct x eqn:?
             end; simplify_eq; simpl in *;
      (repeat split; [lia|apply Forall_insert; simpl; auto]).
  - destruct Hinv as (Hn & Hall).
    pose proof (Forall_lookup_1 _ _ _ _ Hall Hp) as Hearly.
    destruct p; simpl in *; try contradiction; subst;
      try rewrite first_ok in Hpc;
      repeat match type of Hpc with
             | context [match ?x with _ => _ end] => destruct x eqn:?
             end; simplify_eq; simpl in *;
      try specialize (Hidle eq_refl); try specialize (Hload eq_refl).
    + split; [lia|apply Forall_insert; simpl; auto].
    + split; [lia|apply Forall_insert; simpl; auto].
    + split; [lia|apply Forall_insert; simpl; auto; destruct lock; lia].
    + repeat split; [destruct lock; lia|destruct lock; lia|].
      apply Forall_insert; simpl; auto.
      eapply Forall_impl; [exact Hall|]. apply early_late.
Qed.

Lemma once_inv_run schedule : forall s,
  once_inv L0 h0 s -> once_inv L0 h0 (run schedule s).
Proof.
  induction schedule as [|i rest IH]; intros s H; simpl; [exact H|].
  apply IH. destruct (step i s) as [s'|] eqn:Hstep; simpl; [|exact H].
  eapply once_inv_step; eassumption.
Qed.

Lemma once_inv_callers n w :
  _llm (manager w) = None -> _lock (manager w) = false -> loads w = L0 ->
  once_inv L0 h0 (callers n w).
Proof.
  intros Hllm Hlock Hloads.
  split; [apply lock_inv_callers, Hlock|].
  simpl. rewrite Hllm. rewrite count_replicate_G40 by reflexivity.
  split; [lia|]. apply Forall_replicate. exact I.
Qed.

Lemma once_inv_loads s :
  once_inv L0 h0 s -> loads (world s) <= S L0.
Proof.
  intros [Hlock Hinv]. pose proof (loads_never_overlap s Hlock).
  destruct (_llm (manager (world s))); [|lia].
  destruct Hinv as (_ & -> & _). lia.
Qed.

Lemma once_inv_finished s :
  once_inv L0 h0 s -> 1 <= length (tasks s) -> all_finished s = true ->
  loads (world s) = S L0 /\
  tasks s = replicate (length (tasks s)) (Returned (Some h0)).
Proof.
  unfold all_finished. intros [_ Hinv] Hlen Hfin.
  rewrite forallb_forall in Hfin.
  destruct (_llm (manager (world s))).
  - destruct Hinv as (_ & Hn & _ & Hall). split; [exact Hn|].
    symmetry. apply replicate_as_Forall. split; [reflexivity|].
    rewrite Forall_forall in Hall |- *. intros p Hp.
    specialize (Hall p Hp). apply list_elem_of_In in Hp.
    specialize (Hfin p Hp).
    destruct p; simpl in *; try discriminate; try contradiction.
    congruence.
  - destruct Hinv as (_ & Hall). exfalso.
    destruct (tasks s) as [|p l]; simpl in *; [lia|].
    apply Forall_cons in Hall as [Hp _].
    specialize (Hfin p (or_introl eq_refl)).
    destruct p; simpl in *; try discriminate; contradiction.
Qed.

End Once.

(** C1, as the code has it. [n] callers of [get_llm] arrive at an
    unloaded manager whose lock is free, and the scheduler interleaves
    them in any way. At no moment are two tasks inside [_load_model];
    every run can be continued until all callers have finished; and
    when the load they trigger succeeds, [_load_model] is invoked at
    most once during the run and exactly once by the time all have
    finished, each caller returning the handle of that one load. *)
Theorem concurrent_get_llm_loads_once (n : nat) (w0 : World) :
  _llm (manager w0) = None -> _lock (manager w0) = false ->
  (forall schedule,
     count loading (tasks (run schedule (callers n w0))) <= 1) /\
  (forall schedule, exists more,
     all_finished (run (schedule ++ more) (callers n w0)) = true) /\
  (forall h0, load_result (loads w0) = Ok h0 -> forall schedule,
     loads (world (run schedule (callers n w0))) <= S (loads w0) /\
     (1 <= n -> all_finished (run schedule (callers n w0)) = true ->
      loads (world (run schedule (callers n w0))) = S (loads w0) /\
      tasks (run schedule (callers n w0)) =
        replicate n (Returned (Some h0)))).
Proof.
  intros Hllm Hlock.
  pose proof (lock_inv_callers n w0 Hlock) as Hinv.
  split; [|split].
  - intros schedule. apply loads_never_overlap, lock_inv_run, Hinv.
  - intros schedule.
    destruct (run_completes _ (run schedule (callers n w0))
                (lock_inv_run schedule _ Hinv) (le_n _)) as [more Hmore].
    exists more. rewrite run_app. exact Hmore.
  - intros h0 Hok schedule.
    pose proof (once_inv_run (loads w0) h0 Hok schedule _
                  (once_inv_callers (loads w0) h0 n w0 Hllm Hlock eq_refl))
      as Honce.
    split; [apply (once_inv_loads _ _ _ Honce)|].
    intros Hn Hfin.
    pose proof (length_tasks_run schedule (callers n w0)) as Hlen.
    simpl in Hlen. rewrite length_replicate in Hlen.
    destruct (once_inv_finished _ _ _ Honce) as [Hloads Htasks];
      [lia|exact Hfin|].
    split; [exact Hloads|]. rewrite Htasks, Hlen. reflexivity.
Qed.

(** *** A task alone is the coroutine run to its end *)

Lemma get_llm_run_task w :
  get_llm settings path_exists Llama_init w =
  match run_task 6 G40 w with
  | (Returned v, w') => Some (Ok v, w')
  | (Raised e, w') => Some (Raise e, w')
  | _ => None
  end.
Proof.
  destruct w as [[llm lock ld] n c].
  unfold Llm.get_llm, async_with_lock, _load_model, bind, get, modify, ret.
  destruct llm, lock; simpl; try reflexivity.
  destruct (load_result n); reflexivity.
Qed.

Lemma reload_model_run_task w :
  reload_model settings path_exists Llama_init w =
  match run_task 5 R100 w with
  | (Returned _, w') => Some (Ok tt, w')
  | (Raised e, w') => Some (Raise e, w')
  | _ => None
  end.
Proof.
  destruct w as [[llm lock ld] n c].
  unfold Llm.reload_model, async_with_lock, _load_model, bind, get, modify, ret.
  destruct llm, lock; simpl; try reflexivity;
    destruct (load_result n); reflexivity.
Qed.

End ConcurrencyFacts.

(** ** The statements above at concrete inputs *)

(** Two callers, the file missing: each of them calls [_load_model], so
    the load is invoked twice (C1, the claim on the code). *)
Lemma failing_load_retried_by_each_caller :
  all_finished two_callers_file_missing = true /\
  loads (world two_callers_file_missing) = 2%nat /\
  tasks two_callers_file_missing =
    [Raised missing_model_error; Raised missing_model_error].
Proof. vm_compute. repeat split. Qed.

Lemma key_checks_witness :
  Routes.hands_over_credentials bearer /\
  ((Routes.authenticate test_settings bearer Routes.ApiKey
      (Some "sk-test-key-123") = Ok tt <->
    exists token, bearer (Some "sk-test-key-123") = Ok token /\
                  token ∈ api_keys test_settings) /\
   (forall token, bearer (Some "sk-test-key-123") = Ok token ->
      token ∉ api_keys test_settings ->
      Routes.authenticate test_settings bearer Routes.ApiKey
        (Some "sk-test-key-123") =
        Raise (HTTPException HTTP_401_UNAUTHORIZED "Invalid API key")) /\
   (Routes.authenticate test_settings bearer Routes.AdminKey
      (Some "sk-test-key-123") = Ok tt <->
    bearer (Some "sk-test-key-123") = Ok (admin_api_key test_settings)) /\
   (admin_api_key test_settings = "" ->
      Routes.authenticate test_settings bearer Routes.AdminKey
        (Some "sk-test-key-123") <> Ok tt) /\
   (forall token, bearer (Some "sk-test-key-123") = Ok token ->
      token <> admin_api_key test_settings ->
      Routes.authenticate test_settings bearer Routes.AdminKey
        (Some "sk-test-key-123") =
        Raise (HTTPException HTTP_403_FORBIDDEN "Admin access required")) /\
   (forall e, bearer (Some "sk-test-key-123") = Raise e ->
      Routes.authenticate test_settings bearer Routes.ApiKey
        (Some "sk-test-key-123") = Raise e /\
      Routes.authenticate test_settings bearer Routes.AdminKey
        (Some "sk-test-key-123") = Raise e) /\
   (forall token dependency, bearer (Some "sk-test-key-123") = Ok token ->
      Routes.authenticate test_settings bearer dependency
        (Some "sk-test-key-123") <>
        Raise (HTTPException HTTP_401_UNAUTHORIZED "Missing API key"))).
Proof.
  assert (H1 : Routes.hands_over_credentials bearer)
    by (exact (hands_over_http_bearer HTTP_403_FORBIDDEN)).
  split; [exact H1|].
  exact (key_checks test_settings bearer (Some "sk-test-key-123") H1).
Defined.

Lemma concurrent_get_llm_loads_once_witness :
  _llm (manager start) = None /\ _lock (manager start) = false /\
  ((forall schedule,
      (count loading
         (tasks (run default_settings file_present init_ok schedule
                   (callers 2 start))) <= 1)%nat) /\
   (forall schedule, exists more,
      all_finished (run default_settings file_present init_ok
                      (schedule ++ more) (callers 2 start)) = true) /\
   (forall h0,
      load_result default_settings file_present init_ok (loads start) = Ok h0 ->
      forall schedule,
      (loads (world (run default_settings file_present init_ok schedule
                       (callers 2 start))) <= S (loads start))%nat /\
      ((1 <= 2)%nat ->
       all_finished (run default_settings file_present init_ok schedule
                       (callers 2 start)) = true ->
       loads (world (run default_settings file_present init_ok schedule
                       (callers 2 start))) = S (loads start) /\
       tasks (run default_settings file_present init_ok schedule
                (callers 2 start)) = replicate 2 (Returned (Some h0))))).
Proof.
  split; [reflexivity|]. split; [reflexivity|].
  apply (concurrent_get_llm_loads_once default_settings file_present init_ok
           2 start); reflexivity.
Defined.

Lemma get_llm_failed_load_retries_witness :
  _llm (manager start) = None /\
  _lock (manager start) = false /\
  load_result default_settings file_missing init_ok (loads start) =
    Raise missing_model_error /\
  ((exists m, missing_model_error = RuntimeError m) /\
   get_llm default_settings file_missing init_ok start =
     Some (Raise missing_model_error, count_load start) /\
   manager (count_load start) = manager start /\
   is_loaded (count_load start) = false /\
   get_llm default_settings file_missing init_ok (count_load start) =
     Some (match load_result default_settings file_missing init_ok
                   (S (loads start)) with
           | Ok h => (Ok (Some h),
                      set_llm (Some h) (count_load (count_load start)))
           | Raise e' => (Raise e', count_load (count_load start))
           end)).
Proof.
  split; [reflexivity|]. split; [reflexivity|]. split; [reflexivity|].
  apply (get_llm_failed_load_retries default_settings file_missing init_ok
           start missing_model_error); reflexivity.
Defined.

Lemma reload_failure_unloads_witness :
  _lock (manager loaded_world) = false /\
  load_result default_settings file_missing init_ok (loads loaded_world) =
    Raise missing_model_error /\
  is_loaded loaded_world = true /\
  exists w',
    reload_model default_settings file_missing init_ok loaded_world =
      Some (Raise missing_model_error, w') /\
    (exists m, missing_model_error = RuntimeError m) /\
    _llm (manager w') = None /\
    is_loaded w' = false /\
    _lock (manager w') = false.
Proof.
  split; [reflexivity|]. split; [reflexivity|]. split; [reflexivity|].
  apply (reload_failure_unloads default_settings file_missing init_ok
           loaded_world missing_model_error); reflexivity.
Defined.

Lemma reload_then_get_llm_witness :
  handle_known loaded_world /\
  reload_model default_settings file_present init_ok loaded_world =
    Some (Ok tt, reloaded_world) /\
  exists h,
    h = {| llama_id := loads loaded_world |} /\
    _llm (manager reloaded_world) = Some h /\
    _llm (manager loaded_world) <> Some h /\
    get_llm default_settings file_present init_ok reloaded_world =
      Some (Ok (Some h), reloaded_world) /\
    forall cs,
      acquisitions default_settings file_present init_ok string stub_call
        stub_chat cs reloaded_world =
      replicate (count_acquire cs) (Ok (Some h)).
Proof.
  assert (handle_known loaded_world) as Hk.
  { intros h [= <-]. simpl. lia. }
  split; [exact Hk|]. split; [reflexivity|].
  apply (reload_then_get_llm default_settings file_present init_ok string
           stub_call stub_chat loaded_world reloaded_world Hk). reflexivity.
Defined.

Lemma generation_keeps_handle_witness :
  get_llm default_settings file_present init_ok start =
    Some (Ok (Some first_handle), loaded_world) /\
  generate_completion default_settings file_present init_ok string broken_call
    "Hello" 100 (7 # 10) 1 None start =
    Some (match broken_call first_handle (calls loaded_world) "Hello" 100
                  (7 # 10) 1 None with
          | Ok d => Ok d
          | Raise e => Raise (RuntimeError ("Generation failed: " ++ str e))
          end, count_call loaded_world) /\
  create_chat_completion default_settings file_present init_ok broken_chat
    [("user", "Hello")] 100 (7 # 10) 1 None start =
    Some (match broken_chat first_handle (calls loaded_world)
                  [("user", "Hello")] 100 (7 # 10) 1 None with
          | Ok d => Ok d
          | Raise e =>
              Raise (RuntimeError ("Chat completion failed: " ++ str e))
          end, count_call loaded_world) /\
  _llm (manager loaded_world) = Some first_handle /\
  manager (count_call loaded_world) = manager loaded_world /\
  is_loaded (count_call loaded_world) = true /\
  get_llm default_settings file_present init_ok (count_call loaded_world) =
    Some (Ok (Some first_handle), count_call loaded_world).
Proof.
  split; [reflexivity|].
  apply (generation_keeps_handle default_settings file_present init_ok string
           broken_call broken_chat start loaded_world first_handle "Hello"
           [("user", "Hello")] 100 (7 # 10) 1 None). reflexivity.
Defined.

Lemma chat_envelope_copies_engine_witness :
  get_llm test_settings file_present init_ok start =
    Some (Ok (Some first_handle), loaded_world) /\
  stub_chat first_handle (calls loaded_world)
    (map (fun msg => (role msg, content msg)) (messages hello))
    (max_tokens hello) (temperature hello) (top_p hello) (stop hello) =
    Ok stub_completion /\
  (Routes.renders stub_completion <->
     exists env,
       Routes.create_chat_completion test_settings file_present init_ok
         stub_chat "0123456789abcdef0123456789abcdef" 1700000000 hello
         start =
       Some (Ok env, count_call loaded_world)) /\
  (forall env w',
     Routes.create_chat_completion test_settings file_present init_ok
       stub_chat "0123456789abcdef0123456789abcdef" 1700000000 hello
       start =
     Some (Ok env, w') ->
     Routes.carries env stub_completion /\
     (d_total_tokens (d_usage stub_completion) =
        d_prompt_tokens (d_usage stub_completion) +
        d_completion_tokens (d_usage stub_completion) ->
      total_tokens (usage env) =
        prompt_tokens (usage env) + completion_tokens (usage env))).
Proof.
  split; [reflexivity|]. split; [reflexivity|].
  apply (chat_envelope_copies_engine test_settings file_present init_ok
           stub_chat start loaded_world first_handle
           "0123456789abcdef0123456789abcdef" 1700000000 hello
           stub_completion); reflexivity.
Defined.

(** The round trip of the request of the tests against the stub engine:
    the envelope the route returns. *)
Example hello_round_trip :
  Routes.create_chat_completion test_settings file_present init_ok stub_chat
    "0123456789abcdef0123456789abcdef" 1700000000 hello start =
  Some (Ok {| id := "chatcmpl-0123456789ab";
              object := "chat.completion";
              created := 1700000000;
              response_model := "test-model";
              choices := [ {| index := 0;
                              message := {| role := "assistant";
                                            content := "Hi there" |};
                              finish_reason := "stop" |} ];
              usage := {| prompt_tokens := 5; completion_tokens := 3;
                          total_tokens := 8 |} |},
        count_call loaded_world).
Proof. vm_compute. reflexivity. Qed.

(** * Further properties *)

(** ** The API keys given to the settings *)

Section StrFacts.
Import Str.

Lemma lstrip_head_ok s : head_ok (lstrip s).
Proof.
  induction s as [|c s IH]; simpl; [exact I|].
  destruct (isspace c) eqn:Hc; [exact IH|exact Hc].
Qed.

Lemma lstrip_id s : head_ok s -> lstrip s = s.
Proof. destruct s as [|c s]; simpl; [reflexivity|]. intros ->. reflexivity. Qed.

Lemma rstrip_head_ok s : head_ok s -> head_ok (rstrip s).
Proof.
  destruct s as [|c s]; simpl; [auto|]. intros Hc.
  destruct (rstrip s); simpl; [rewrite Hc|]; exact Hc.
Qed.

Lemma rstrip_idem s : rstrip (rstrip s) = rstrip s.
Proof.
  induction s as [|c s IH]; simpl; [reflexivity|].
  destruct (rstrip s) as [|c' r] eqn:Hr.
  - destruct (isspace c) eqn:Hc; simpl; [reflexivity|]. rewrite Hc. reflexivity.
  - change (rstrip (String c (String c' r))) with
      (match rstrip (String c' r) with
       | EmptyString => if isspace c then EmptyString else String c EmptyString
       | r' => String c r'
       end).
    rewrite IH. reflexivity.
Qed.

Lemma strip_idem s : strip (strip s) = strip s.
Proof.
  unfold strip.
  rewrite (lstrip_id (rstrip (lstrip s)))
    by apply rstrip_head_ok, lstrip_head_ok.
  apply rstrip_idem.
Qed.

Lemma contains_lstrip c s : contains c (lstrip s) = true -> contains c s = true.
Proof.
  induction s as [|c' s IH]; simpl; [auto|].
  destruct (isspace c'); [|auto]. intros H. rewrite (IH H).
  apply orb_true_r.
Qed.

Lemma contains_rstrip c s : contains c (rstrip s) = true -> contains c s = true.
Proof.
  induction s as [|c' s IH]; simpl; [auto|].
  destruct (rstrip s) as [|c'' r].
  - destruct (isspace c'); simpl; [discriminate|].
    rewrite orb_false_r. intros ->. reflexivity.
  - intros H. change (contains c (String c' (String c'' r)))
      with (Ascii.eqb c' c || contains c (String c'' r)) in H.
    apply orb_true_iff in H as [H|H]; [rewrite H; reflexivity|].
    rewrite (IH H). apply orb_true_r.
Qed.

Lemma contains_strip c s : contains c s = false -> contains c (strip s) = false.
Proof.
  intros H. destruct (contains c (strip s)) eqn:Hs; [|reflexivity].
  apply contains_rstrip, contains_lstrip in Hs. congruence.
Qed.

Lemma nonempty_spec s : nonempty s = true <-> s <> EmptyString.
Proof. destruct s; simpl; split; congruence. Qed.

Lemma split_not_nil sep s : split sep s <> [].
Proof.
  destruct s as [|c s]; simpl; [discriminate|].
  destruct (Ascii.eqb c sep); [discriminate|].
  destruct (split sep s); discriminate.
Qed.

Lemma split_pieces sep s :
  Forall (fun piece => contains sep piece = false) (split sep s).
Proof.
  induction s as [|c s IH]; simpl.
  - repeat constructor.
  - destruct (Ascii.eqb c sep) eqn:Hc; [constructor; [reflexivity|exact IH]|].
    destruct (split sep s) as [|piece pieces]; [repeat constructor|].
    + simpl. rewrite Hc. reflexivity.
    + apply Forall_cons in IH as [Hp Hps]. constructor; [|exact Hps].
      simpl. rewrite Hc, Hp. reflexivity.
Qed.

Lemma split_no_sep sep k : contains sep k = false -> split sep k = [k].
Proof.
  induction k as [|c k IH]; simpl; [reflexivity|].
  intros H. apply orb_false_iff in H as [Hc Hk].
  rewrite Hc, (IH Hk). reflexivity.
Qed.

Lemma split_app_sep sep k rest :
  contains sep k = false ->
  split sep (k ++ String sep rest) = k :: split sep rest.
Proof.
  induction k as [|c k IH]; simpl.
  - intros _. rewrite Ascii.eqb_refl. reflexivity.
  - intros H. apply orb_false_iff in H as [Hc Hk].
    rewrite Hc, (IH Hk). reflexivity.
Qed.

Lemma split_join sep keys :
  keys <> [] -> Forall (fun k => contains sep k = false) keys ->
  split sep (join sep keys) = keys.
Proof.
  induction keys as [|k keys IH]; [congruence|]. intros _ Hall.
  apply Forall_cons in Hall as [Hk Hks].
  destruct keys as [|k' keys].
  - simpl. apply split_no_sep, Hk.
  - change (join sep (k :: k' :: keys))
      with (k ++ String sep (join sep (k' :: keys))).
    rewrite split_app_sep by exact Hk. f_equal.
    apply IH; [discriminate|exact Hks].
Qed.

End StrFacts.

Section ParseFacts.
Import Str ConfigEnv.

Lemma parse_api_keys_In (v k : string) :
  k ∈ parse_api_keys (RawStr v) <->
  exists piece, piece ∈ split "," v /\ strip piece <> EmptyString /\
                k = strip piece.
Proof.
  unfold parse_api_keys. rewrite list_elem_of_fmap. split.
  - intros (piece & -> & Hin). exists piece.
    apply list_elem_of_In, filter_In in Hin as [Hin Hne].
    rewrite nonempty_spec in Hne. rewrite list_elem_of_In. auto.
  - intros (piece & Hin & Hne & ->). exists piece. split; [reflexivity|].
    apply list_elem_of_In, filter_In. rewrite nonempty_spec.
    rewrite <- list_elem_of_In. auto.
Qed.

(** X1: every key [parse_api_keys] reads from a [str] is non-empty, has
    no whitespace left at either end and contains no comma, whatever the
    [str]. *)
Theorem parse_api_keys_clean (v k : string) :
  k ∈ parse_api_keys (RawStr v) -> clean k.
Proof.
  rewrite parse_api_keys_In. intros (piece & Hin & Hne & ->).
  split; [exact Hne|]. split; [apply strip_idem|].
  apply contains_strip.
  pose proof (split_pieces "," v) as Hall. rewrite Forall_forall in Hall.
  apply Hall, Hin.
Qed.

Lemma clean_pieces (keys : list string) :
  Forall clean keys ->
  map strip (List.filter (fun key => nonempty (strip key)) keys) = keys.
Proof.
  induction 1 as [|k ks (Hne & Hstrip & _) _ IH]; [reflexivity|].
  simpl. rewrite Hstrip.
  destruct k as [|c k]; [congruence|]. simpl. rewrite Hstrip.
  f_equal. exact IH.
Qed.

Lemma clean_no_comma (keys : list string) :
  Forall clean keys -> Forall (fun k => contains "," k = false) keys.
Proof.
  intros Hall. eapply Forall_impl; [exact Hall|].
  intros k (_ & _ & H). exact H.
Qed.

(** X2: writing clean keys separated by commas and reading them back
    gives the same keys in the same order. *)
Theorem parse_api_keys_join (keys : list string) :
  Forall clean keys ->
  parse_api_keys (RawStr (join "," keys)) = keys.
Proof.
  intros Hall. destruct keys as [|k keys]; [reflexivity|].
  unfold parse_api_keys. rewrite split_join.
  - apply clean_pieces, Hall.
  - discriminate.
  - apply clean_no_comma, Hall.
Qed.

(** X3: every key [parse_api_keys] reads from a [str] is accepted by
    [verify_api_key] under the settings built from that [str]. *)
Theorem parsed_keys_verify (s : Settings) (v k : string) :
  k ∈ parse_api_keys (RawStr v) ->
  Auth.verify_api_key (with_api_keys s (RawStr v)) k = Ok k.
Proof.
  intros Hin. apply verify_api_key_ok. split; [|exact Hin].
  apply parse_api_keys_In in Hin as (piece & _ & Hne & ->). exact Hne.
Qed.

(** X4: a [str] given for the [api_keys] field yields no key exactly when
    each of its comma-separated pieces is blank, and then
    [validate_required_fields] raises its first error. *)
Theorem blank_api_keys_rejected (s : Settings) (v : string) :
  (api_keys (with_api_keys s (RawStr v)) = [] <->
     Forall (fun piece => strip piece = EmptyString) (split "," v)) /\
  (Forall (fun piece => strip piece = EmptyString) (split "," v) ->
     validate_required_fields (with_api_keys s (RawStr v)) =
       Raise (ValueError no_api_keys_msg)).
Proof.
  assert (parse_api_keys (RawStr v) = [] <->
          Forall (fun piece => strip piece = EmptyString) (split "," v))
    as Hiff.
  { unfold parse_api_keys. induction (split "," v) as [|piece l IH]; simpl.
    - split; [constructor|reflexivity].
    - destruct (strip piece) eqn:Hp; simpl.
      + rewrite IH. split; [intros H; constructor; auto|].
        intros H. apply Forall_cons in H as [_ H]. exact H.
      + split; [discriminate|]. intros H.
        apply Forall_cons in H as [H _]. congruence. }
  split; [exact Hiff|]. intros Hall. apply Hiff in Hall.
  unfold validate_required_fields.
  change (api_keys (with_api_keys s (RawStr v)))
    with (parse_api_keys (RawStr v)).
  rewrite Hall. reflexivity.
Qed.

End ParseFacts.

(** ** Generated keys *)

Section ScriptFacts.
Import Str ConfigEnv Scripts.

Lemma get_contains n s :
  (n < String.length s)%nat ->
  exists c, String.get n s = Some c /\ contains c s = true.
Proof.
  revert n. induction s as [|c s IH]; simpl; intros n Hn; [lia|].
  destruct n as [|n].
  - exists c. rewrite Ascii.eqb_refl. auto.
  - destruct (IH n) as (c' & Hget & Hin); [lia|].
    exists c'. rewrite Hin, orb_true_r. auto.
Qed.

Lemma choice_alphabet r :
  exists c, choice alphabet r = Ok c /\ contains c alphabet = true.
Proof.
  unfold choice.
  destruct (get_contains (r mod String.length alphabet) alphabet)
    as (c & Hget & Hin).
  { apply Nat.mod_upper_bound. discriminate. }
  exists c. rewrite Hget. auto.
Qed.

Lemma random_string_spec draws n : forall i,
  exists r, random_string draws i n = Ok r /\
            String.length r = n /\
            forall c, contains c r = true -> contains c alphabet = true.
Proof.
  induction n as [|n IH]; intros i; cbn [random_string].
  - exists EmptyString. split; [reflexivity|]. split; [reflexivity|].
    intros c. cbn [contains]. discriminate.
  - destruct (choice_alphabet (draws i)) as (c & -> & Hc).
    destruct (IH (S i)) as (r & -> & Hlen & Hr).
    exists (String c r). split; [reflexivity|].
    split; [cbn [String.length]; lia|].
    intros c' H. cbn [contains] in H.
    apply orb_true_iff in H as [H|H]; [|exact (Hr _ H)].
    apply Ascii.eqb_eq in H. subst. exact Hc.
Qed.

Lemma alphabet_plain c :
  contains c alphabet = true ->
  isspace c = false /\ Ascii.eqb c "," = false.
Proof.
  destruct c as [[] [] [] [] [] [] [] []]; vm_compute; intros H;
    try discriminate; split; reflexivity.
Qed.

Lemma contains_app c a b :
  contains c (a ++ b) = contains c a || contains c b.
Proof.
  induction a as [|c' a IH]; simpl; [reflexivity|].
  rewrite IH, orb_assoc. reflexivity.
Qed.

Lemma rstrip_plain s :
  (forall c, contains c s = true -> isspace c = false) -> rstrip s = s.
Proof.
  induction s as [|c s IH]; simpl; [reflexivity|]. intros H.
  rewrite IH.
  - destruct s; [|reflexivity].
    rewrite (H c); [reflexivity|]. rewrite Ascii.eqb_refl. reflexivity.
  - intros c' Hc'. apply H. rewrite Hc', orb_true_r. reflexivity.
Qed.

Lemma rstrip_app a b :
  b <> EmptyString -> rstrip b = b -> rstrip (a ++ b) = a ++ b.
Proof.
  intros Hne Hb. induction a as [|c a IH]; [exact Hb|].
  change (String c a ++ b) with (String c (a ++ b)).
  cbn [rstrip]. rewrite IH. destruct (a ++ b) eqn:Hab; [|reflexivity].
  destruct a; [|discriminate]. change (b = EmptyString) in Hab. congruence.
Qed.

Lemma key_is_clean (prefix r : string) :
  head_ok prefix -> contains "," prefix = false ->
  (forall c, contains c r = true -> contains c alphabet = true) ->
  clean (prefix ++ "-" ++ r).
Proof.
  intros Hhead Hcomma Hr.
  assert (forall c, contains c ("-" ++ r) = true -> isspace c = false)
    as Hplain.
  { intros c H. change ("-" ++ r) with (String "-" r) in H.
    cbn [contains] in H.
    apply orb_true_iff in H as [H|H].
    - apply Ascii.eqb_eq in H. subst. reflexivity.
    - apply (alphabet_plain c (Hr c H)). }
  split; [|split].
  - destruct prefix; discriminate.
  - unfold strip. rewrite lstrip_id.
    + apply rstrip_app; [discriminate|]. apply rstrip_plain, Hplain.
    + destruct prefix; [reflexivity|exact Hhead].
  - rewrite contains_app, Hcomma. change ("-" ++ r) with (String "-" r).
    cbn [contains orb]. change (Ascii.eqb "-" ",") with false. cbn [orb].
    destruct (contains "," r) eqn:Hc; [|reflexivity].
    destruct (alphabet_plain _ (Hr _ Hc)) as [_ H]. discriminate.
Qed.

(** X5: [generate_api_key] always returns the prefix, a hyphen and a
    random part of exactly [length] characters (none for a negative
    [length]), all of them letters or digits. *)
Theorem generate_api_key_format (draws : nat -> nat) (prefix : string)
    (length : Z) :
  exists r,
    generate_api_key draws prefix length = Ok (prefix ++ "-" ++ r) /\
    String.length r = Z.to_nat length /\
    (length <= 0 -> r = EmptyString) /\
    forall c, contains c r = true -> contains c alphabet = true.
Proof.
  unfold generate_api_key.
  destruct (random_string_spec draws (Z.to_nat length) 0)
    as (r & -> & Hlen & Hr).
  exists r. split; [reflexivity|]. split; [exact Hlen|]. split; [|exact Hr].
  intros Hneg. destruct r; [reflexivity|]. simpl in Hlen. lia.
Qed.

(** X6: with a prefix that has no comma and does not start with
    whitespace, a generated key is clean: it survives [strip], is not
    empty and has no comma. *)
Theorem generate_api_key_clean (draws : nat -> nat) (prefix : string)
    (length : Z) (k : string) :
  head_ok prefix -> contains "," prefix = false ->
  generate_api_key draws prefix length = Ok k -> clean k.
Proof.
  intros Hhead Hcomma. unfold generate_api_key.
  destruct (random_string_spec draws (Z.to_nat length) 0)
    as (r & -> & _ & Hr).
  intros [= <-]. apply key_is_clean; assumption.
Qed.

(** X7: two generated keys given for the [api_keys] field, joined by a
    comma in one [str] or as a list of two, configure exactly these two
    keys, and each of them passes [verify_api_key]. *)
Theorem generated_keys_configure (s : Settings) (draws1 draws2 : nat -> nat)
    (prefix1 prefix2 : string) (length1 length2 : Z) (k1 k2 : string) :
  head_ok prefix1 -> contains "," prefix1 = false ->
  head_ok prefix2 -> contains "," prefix2 = false ->
  generate_api_key draws1 prefix1 length1 = Ok k1 ->
  generate_api_key draws2 prefix2 length2 = Ok k2 ->
  forall v, v = RawStr (k1 ++ "," ++ k2) \/ v = RawList [k1; k2] ->
  api_keys (with_api_keys s v) = [k1; k2] /\
  Auth.verify_api_key (with_api_keys s v) k1 = Ok k1 /\
  Auth.verify_api_key (with_api_keys s v) k2 = Ok k2.
Proof.
  intros Hh1 Hc1 Hh2 Hc2. unfold generate_api_key.
  destruct (random_string_spec draws1 (Z.to_nat length1) 0)
    as (r1 & -> & _ & Hr1).
  destruct (random_string_spec draws2 (Z.to_nat length2) 0)
    as (r2 & -> & _ & Hr2).
  intros [= <-] [= <-] v Hv.
  pose proof (key_is_clean prefix1 r1 Hh1 Hc1 Hr1) as Hclean1.
  pose proof (key_is_clean prefix2 r2 Hh2 Hc2 Hr2) as Hclean2.
  set (k1 := prefix1 ++ "-" ++ r1) in *. set (k2 := prefix2 ++ "-" ++ r2) in *.
  assert (Forall clean [k1; k2]) as Hall.
  { constructor; [exact Hclean1|]. constructor; [exact Hclean2|constructor]. }
  assert (parse_api_keys v = [k1; k2]) as Hparse.
  { destruct Hv as [-> | ->]; [|reflexivity]. unfold parse_api_keys.
    change (k1 ++ "," ++ k2) with (join "," [k1; k2]).
    rewrite split_join; [|discriminate|apply clean_no_comma, Hall].
    apply clean_pieces, Hall. }
  split; [exact Hparse|].
  split; apply verify_api_key_ok;
    (split; [|change (api_keys (with_api_keys s v))
               with (parse_api_keys v);
              rewrite Hparse]).
  - apply Hclean1.
  - apply list_elem_of_here.
  - apply Hclean2.
  - apply list_elem_of_further, list_elem_of_here.
Qed.

End ScriptFacts.

(** ** The manager under any sequence of calls *)

Section CallsFacts.
Import Calls.
Variable settings : Settings.
Variable path_exists : nat -> bool.
Variable Llama_init : nat -> option string.
Variable completion_dict : Type.
Variable llama_call :
  Llama -> nat -> string -> Z -> Q -> Q -> option (list string) ->
  result completion_dict.
Variable llama_create_chat_completion :
  Llama -> nat -> list (string * string) -> Z -> Q -> Q ->
  option (list string) -> result ChatDict.

Abbreviation load_result := (load_result settings path_exists Llama_init).
Abbreviation get_llm := (get_llm settings path_exists Llama_init).
Abbreviation reload_model := (reload_model settings path_exists Llama_init).
Abbreviation perform :=
  (perform settings path_exists Llama_init completion_dict llama_call
     llama_create_chat_completion).
Abbreviation perform_all :=
  (perform_all settings path_exists Llama_init completion_dict llama_call
     llama_create_chat_completion).

#[local] Open Scope nat_scope.

Lemma get_llm_settled w :
  settled w ->
  exists r w', get_llm w = Some (r, w') /\ advanced w w' /\
               calls w' = calls w /\
               (forall v, r = Ok v -> v = _llm (manager w') /\ v <> None).
Proof.
  intros Hs. pose proof Hs as [Hlock _].
  destruct (_llm (manager w)) as [h|] eqn:Hllm.
  - exists (Ok (Some h)), w. split; [apply get_llm_loaded, Hllm|].
    split; [split; [exact Hs|lia]|]. split; [reflexivity|].
    intros v [= <-]. rewrite Hllm. split; [reflexivity|discriminate].
  - destruct (load_result (loads w)) as [h|e] eqn:Hload.
    + exists (Ok (Some h)), (set_llm (Some h) (count_load w)).
      split; [apply get_llm_load_ok; assumption|].
      split; [split; [split; [exact Hlock|]|simpl; lia]|].
      * intros h' [= <-]. rewrite (load_result_ok _ _ _ _ _ Hload).
        reflexivity.
      * split; [reflexivity|]. intros v [= <-].
        split; [reflexivity|discriminate].
    + exists (Raise e), (count_load w).
      split; [apply get_llm_load_fails; assumption|].
      split; [split; [split; [exact Hlock|]|simpl; lia]|].
      * simpl. rewrite Hllm. discriminate.
      * split; [reflexivity|]. discriminate.
Qed.

Lemma reload_model_settled w :
  settled w ->
  exists r w', reload_model w = Some (r, w') /\ advanced w w' /\
               calls w' = calls w.
Proof.
  intros [Hlock Hid].
  destruct (load_result (loads w)) as [h|e] eqn:Hload.
  - exists (Ok tt), (set_llm (Some h) (count_load w)).
    split; [apply reload_model_ok; assumption|].
    split; [split; [split; [exact Hlock|]|simpl; lia]|reflexivity].
    intros h' [= <-]. rewrite (load_result_ok _ _ _ _ _ Hload). reflexivity.
  - exists (Raise e), (set_llm None (count_load w)).
    split; [apply reload_model_fails; assumption|].
    split; [split; [split; [exact Hlock|]|simpl; lia]|reflexivity].
    discriminate.
Qed.

Lemma advanced_count_call w w1 :
  advanced w w1 -> calls w1 = calls w -> advanced w (count_call w1).
Proof.
  intros ([Hlock Hid] & Hl & Hc) Heq.
  split; [split; [exact Hlock|exact Hid]|]. simpl. lia.
Qed.

Lemma perform_settled o w :
  settled w -> exists w', perform o w = Some w' /\ advanced w w'.
Proof.
  intros Hs. destruct o as [[|prompt mt t p stop|msgs mt t p stop]|];
    cbn [Calls.perform].
  - destruct (get_llm_settled w Hs) as (r & w' & -> & Hadv & _).
    exists w'. auto.
  - destruct (get_llm_settled w Hs) as (r & w1 & Hget & Hadv & Hcalls & Hr).
    destruct r as [[h|]|e].
    + rewrite (generate_completion_after settings path_exists Llama_init
                 completion_dict llama_call w h w1) by exact Hget.
      exists (count_call w1). split; [reflexivity|].
      apply advanced_count_call; assumption.
    + destruct (Hr None eq_refl) as [_ H]. congruence.
    + unfold Llm.generate_completion, bind. rewrite Hget.
      exists w1. auto.
  - destruct (get_llm_settled w Hs) as (r & w1 & Hget & Hadv & Hcalls & Hr).
    destruct r as [[h|]|e].
    + rewrite (create_chat_completion_after settings path_exists Llama_init
                 llama_create_chat_completion w h w1) by exact Hget.
      exists (count_call w1). split; [reflexivity|].
      apply advanced_count_call; assumption.
    + destruct (Hr None eq_refl) as [_ H]. congruence.
    + unfold Llm.create_chat_completion, bind. rewrite Hget.
      exists w1. auto.
  - destruct (reload_model_settled w Hs) as (r & w' & -> & Hadv & _).
    exists w'. auto.
Qed.

(** X8: run one after the other on a manager whose lock is free and
    whose handle is the latest load's, any calls of [get_llm],
    [reload_model], [generate_completion] and [create_chat_completion]
    all complete, whatever fails on the way; afterwards the lock is free
    again, the stored handle (if any) is the one built by the latest
    invocation of [_load_model], and each call has made at most one load
    and one inference call. *)
Theorem perform_all_settled (ops : list op) : forall w,
  settled w ->
  exists w', perform_all ops w = Some w' /\ settled w' /\
             loads w <= loads w' <= loads w + length ops /\
             calls w <= calls w' <= calls w + length ops.
Proof.
  induction ops as [|o ops IH]; intros w Hs.
  - exists w. simpl. repeat split; try apply Hs; lia.
  - destruct (perform_settled o w Hs) as (w1 & Hp & Hs1 & Hl & Hc).
    destruct (IH w1 Hs1) as (w' & Hall & Hs' & Hl' & Hc').
    exists w'. cbn [Calls.perform_all]. rewrite Hp.
    split; [exact Hall|]. split; [exact Hs'|]. simpl. lia.
Qed.

End CallsFacts.

(** ** Start-up *)

Section StartupFacts.
Variable settings : Settings.
Variable path_exists : nat -> bool.
Variable Llama_init : nat -> option string.

Abbreviation load_result := (load_result settings path_exists Llama_init).
Abbreviation get_llm := (get_llm settings path_exists Llama_init).

(** X9: the start-up of the application never fails on the model: with
    the lock free, [lifespan]'s preload completes normally whether the
    load succeeds or not; the model is loaded afterwards exactly when it
    was already or the load succeeded; and when it is not, the next
    [get_llm] calls [_load_model] again. *)
Theorem lifespan_startup_never_fails (w : World) :
  _lock (manager w) = false ->
  exists w',
    Main.lifespan_startup settings path_exists Llama_init w =
      Some (Ok tt, w') /\
    _lock (manager w') = false /\
    (is_loaded w' = true <->
       is_loaded w = true \/ is_ok (load_result (loads w)) = true) /\
    (is_loaded w' = false ->
       get_llm w' =
         Some (match load_result (loads w') with
               | Ok h => (Ok (Some h), set_llm (Some h) (count_load w'))
               | Raise e => (Raise e, count_load w')
               end)).
Proof.
  intros Hlock. unfold Main.lifespan_startup, try_except, bind, ret, is_loaded.
  destruct (_llm (manager w)) as [h|] eqn:Hllm.
  - rewrite (get_llm_loaded settings path_exists Llama_init w h Hllm).
    exists w. rewrite Hllm. split; [reflexivity|]. split; [exact Hlock|].
    split; [tauto|discriminate].
  - destruct (load_result (loads w)) as [h|e] eqn:Hload.
    + rewrite (get_llm_load_ok settings path_exists Llama_init w h)
        by assumption.
      eexists. split; [reflexivity|]. simpl. split; [exact Hlock|].
      split; [tauto|discriminate].
    + rewrite (get_llm_load_fails settings path_exists Llama_init w e)
        by assumption.
      eexists. split; [reflexivity|]. simpl. rewrite Hllm.
      split; [exact Hlock|]. split.
      * split; [discriminate|]. intros [H|H]; discriminate.
      * intros _.
        destruct (load_result (S (loads w))) as [h'|e'] eqn:Hnext.
        -- apply get_llm_load_ok; assumption.
        -- apply get_llm_load_fails; assumption.
Qed.

End StartupFacts.

(** ** The routes behind a key *)

Section EndpointFacts.
Import Routes Endpoints.
Variable settings : Settings.
Variable path_exists : nat -> bool.
Variable Llama_init : nat -> option string.
Variable security : option string -> result string.

Abbreviation load_result := (load_result settings path_exists Llama_init).
Abbreviation authenticate := (authenticate settings security).

Lemma authenticate_api_key authorization token :
  security authorization = Ok token ->
  authenticate ApiKey authorization =
    if bool_decide (token <> "" /\ token ∈ api_keys settings) then Ok tt
    else Raise (HTTPException HTTP_401_UNAUTHORIZED
                  (if bool_decide (token = "") then "Missing API key"
                   else "Invalid API key")).
Proof.
  intros Hsec. unfold Routes.authenticate, Auth.verify_api_key.
  rewrite Hsec. repeat case_bool_decide; simpl; try reflexivity; tauto.
Qed.

Lemma authenticate_admin_key authorization token :
  security authorization = Ok token ->
  authenticate AdminKey authorization =
    if bool_decide (token = "") then
      Raise (HTTPException HTTP_401_UNAUTHORIZED "Missing API key")
    else if bool_decide (token = admin_api_key settings) then Ok tt
    else Raise (HTTPException HTTP_403_FORBIDDEN "Admin access required").
Proof.
  intros Hsec. unfold Routes.authenticate, Auth.verify_admin_key.
  rewrite Hsec. repeat case_bool_decide; simpl; try reflexivity; tauto.
Qed.

(** X10: [GET /v1/models] sends the model list exactly when the bearer
    token is a non-empty configured key; the list then holds one model,
    named after the settings, and the answer is a 200; any other token
    gets a 401 and no list. *)
Theorem models_listed_to_keys (authorization : option string)
    (token : string) :
  security authorization = Ok token ->
  (snd (get_models settings security authorization) <> None <->
     token <> "" /\ token ∈ api_keys settings) /\
  (token <> "" /\ token ∈ api_keys settings ->
     get_models settings security authorization =
       (HTTP_200_OK,
        Some {| list_object := "list";
                data := [ {| info_id := model_name settings;
                             info_object := "model";
                             owned_by := "local" |} ] |})) /\
  (~ (token <> "" /\ token ∈ api_keys settings) ->
     get_models settings security authorization =
       (HTTP_401_UNAUTHORIZED, None)).
Proof.
  intros Hsec. unfold get_models. cbn [depends].
  rewrite (authenticate_api_key authorization token Hsec).
  case_bool_decide as Hok; simpl.
  - split; [split; [auto|discriminate]|]. split; [reflexivity|tauto].
  - split; [split; [congruence|tauto]|]. split; [tauto|reflexivity].
Qed.

(** X11: for a (non-empty) token handed over by the bearer scheme,
    [GET /admin/info] sends the server information exactly when the
    token is the admin key; it reports whether a model is loaded as
    [is_loaded()] does, without loading one. Any other such token, a
    user key included, gets a 403 and no information. *)
Theorem admin_info_to_admin (authorization : option string)
    (token : string) (w : World) :
  security authorization = Ok token -> token <> "" ->
  (snd (get_admin_info settings security authorization w) <> None <->
     token = admin_api_key settings) /\
  (token = admin_api_key settings ->
     get_admin_info settings security authorization w =
       (HTTP_200_OK,
        Some {| info_model_name := model_name settings;
                info_model_path := model_path settings;
                info_n_ctx := n_ctx settings;
                info_n_gpu_layers := n_gpu_layers settings;
                info_model_loaded := is_loaded w |})) /\
  (token <> admin_api_key settings ->
     get_admin_info settings security authorization w =
       (HTTP_403_FORBIDDEN, None)).
Proof.
  intros Hsec Hne. unfold get_admin_info. cbn [depends].
  rewrite (authenticate_admin_key authorization token Hsec).
  rewrite (bool_decide_eq_false_2 _ Hne).
  case_bool_decide as Hadmin; simpl.
  - split; [split; [auto|discriminate]|]. split; [reflexivity|tauto].
  - split; [split; [intros H; exfalso; apply H; reflexivity|tauto]|].
    split; [tauto|reflexivity].
Qed.

(** X12: [POST /admin/reload] reloads only for the admin key. With any
    other token the manager is left exactly as it was. With the admin
    key and the lock free, a load that succeeds gives a 200 and the new
    handle, and a load that fails gives a 500 naming the cause and
    leaves no model loaded. *)
Theorem admin_reload_outcomes (authorization : option string)
    (token : string) (w : World) :
  security authorization = Ok token ->
  _lock (manager w) = false ->
  (~ (token <> "" /\ token = admin_api_key settings) ->
     exists resp,
       post_admin_reload settings path_exists Llama_init security
         authorization w = Some (resp, w) /\
       (status_code resp = HTTP_401_UNAUTHORIZED \/
        status_code resp = HTTP_403_FORBIDDEN)) /\
  (token <> "" /\ token = admin_api_key settings ->
     forall h, load_result (loads w) = Ok h ->
     post_admin_reload settings path_exists Llama_init security
       authorization w =
     Some ({| status_code := HTTP_200_OK;
              body := ReloadBody
                {| reload_status := "success";
                   reload_message := "Model reloaded successfully" |} |},
           set_llm (Some h) (count_load w))) /\
  (token <> "" /\ token = admin_api_key settings ->
     forall e, load_result (loads w) = Raise e ->
     post_admin_reload settings path_exists Llama_init security
       authorization w =
     Some ({| status_code := HTTP_500_INTERNAL_SERVER_ERROR;
              body := ErrorBody ("Model reload failed: " ++ str e) |},
           set_llm None (count_load w)) /\
     is_loaded (set_llm None (count_load w)) = false).
Proof.
  intros Hsec Hlock. unfold post_admin_reload. cbn [depends].
  rewrite (authenticate_admin_key authorization token Hsec).
  split; [|split].
  - intros Hnot. repeat case_bool_decide; simpl; try tauto; eauto.
  - intros [Hne Heq] h Hload. repeat case_bool_decide; try tauto.
    unfold Routes.reload_model, try_except, bind.
    rewrite (reload_model_ok settings path_exists Llama_init w h Hlock Hload).
    reflexivity.
  - intros [Hne Heq] e Hload. repeat case_bool_decide; try tauto.
    rewrite (reload_route_failure settings path_exists Llama_init w e
               Hlock Hload).
    split; reflexivity.
Qed.

End EndpointFacts.

(** ** A chat request from end to end *)

Section ChatEndpointFacts.
Import Routes.
Variable settings : Settings.
Variable path_exists : nat -> bool.
Variable Llama_init : nat -> option string.
Variable llama_create_chat_completion :
  Llama -> nat -> list (string * string) -> Z -> Q -> Q ->
  option (list string) -> result ChatDict.
Variable security : option string -> result string.

Abbreviation load_result := (load_result settings path_exists Llama_init).
Abbreviation get_llm := (get_llm settings path_exists Llama_init).
Abbreviation route :=
  (Routes.create_chat_completion settings path_exists Llama_init
     llama_create_chat_completion).
Abbreviation post_chat_completions :=
  (post_chat_completions settings path_exists Llama_init
     llama_create_chat_completion security).
Abbreviation engine_answer h n request :=
  (llama_create_chat_completion h n
     (map (fun msg => (role msg, content msg)) (messages request))
     (max_tokens request) (temperature request) (top_p request)
     (stop request)).

#[local] Open Scope nat_scope.

Lemma request_body_ok r request :
  request_body r = Ok request -> request = r /\ validate r = Ok r.
Proof.
  unfold request_body, validate.
  destruct (field_errors r); [|discriminate]. intros [= <-]. auto.
Qed.

Lemma request_body_raise r e :
  request_body r = Raise e -> exists errs, e = RequestValidationError errs.
Proof.
  unfold request_body, validate.
  destruct (field_errors r); [discriminate|]. intros [= <-]. eauto.
Qed.

Lemma route_engine_raises w w1 h uuid_hex now request e :
  get_llm w = Some (Ok (Some h), w1) ->
  engine_answer h (calls w1) request = Raise e ->
  route uuid_hex now request w =
    Some (Raise (HTTPException HTTP_500_INTERNAL_SERVER_ERROR
                   ("Generation failed: Chat completion failed: " ++ str e)),
          count_call w1).
Proof.
  intros Hget Hengine.
  unfold Routes.create_chat_completion, try_except, bind.
  rewrite (create_chat_completion_after settings path_exists Llama_init
             llama_create_chat_completion w h w1) by exact Hget.
  rewrite Hengine. reflexivity.
Qed.

Lemma route_load_fails w uuid_hex now request e :
  _llm (manager w) = None -> _lock (manager w) = false ->
  load_result (loads w) = Raise e ->
  route uuid_hex now request w =
    Some (Raise (HTTPException HTTP_500_INTERNAL_SERVER_ERROR
                   ("Generation failed: " ++ str e)),
          count_load w).
Proof.
  intros Hllm Hlock Hload.
  destruct (load_result_raise _ _ _ _ _ Hload) as [m ->].
  unfold Routes.create_chat_completion, Llm.create_chat_completion,
    try_except, bind.
  rewrite (get_llm_load_fails settings path_exists Llama_init w _ Hllm Hlock
             Hload).
  reflexivity.
Qed.

(** What the route leaves once the manager has handed out [h] in [w1]:
    one inference call, and a 500 for whatever went wrong. *)
Lemma route_after_get_llm w w1 h uuid_hex now request :
  get_llm w = Some (Ok (Some h), w1) ->
  exists r,
    route uuid_hex now request w = Some (r, count_call w1) /\
    match r with
    | Ok _ => True
    | Raise e => exists d, e = HTTPException HTTP_500_INTERNAL_SERVER_ERROR d
    end.
Proof.
  intros Hget.
  destruct (engine_answer h (calls w1) request) as [fixed|e] eqn:Hengine.
  - rewrite (route_after_engine settings path_exists Llama_init
               llama_create_chat_completion w w1 h uuid_hex now request fixed
               Hget Hengine).
    destruct (d_choices fixed).
    { eexists. split; [reflexivity|]. simpl. eauto. }
    repeat case_bool_decide.
    + eexists. split; [reflexivity|]. exact I.
    + eexists. split; [reflexivity|]. simpl. eauto.
    + eexists. split; [reflexivity|]. simpl. eauto.
  - rewrite (route_engine_raises w w1 h uuid_hex now request e Hget Hengine).
    eexists. split; [reflexivity|]. simpl. eauto.
Qed.

(** X13: when the engine raises on an authenticated, valid request, the
    client gets a 500 whose detail carries the engine's text behind
    "Generation failed: Chat completion failed: ", the engine has been
    called once, and the model is still loaded. *)
Theorem chat_engine_failure_is_500 (authorization : option string)
    (uuid_hex : string) (now : Z) (r : ChatCompletionRequest)
    (w w1 : World) (h : Llama) (e : exn) :
  authenticate settings security (depends ChatCompletions) authorization =
    Ok tt ->
  validate r = Ok r ->
  get_llm w = Some (Ok (Some h), w1) ->
  engine_answer h (calls w1) r = Raise e ->
  post_chat_completions authorization uuid_hex now r w =
    Some ({| status_code := HTTP_500_INTERNAL_SERVER_ERROR;
             body := ErrorBody
               ("Generation failed: Chat completion failed: " ++ str e) |},
          count_call w1) /\
  calls (count_call w1) = S (calls w1) /\
  is_loaded (count_call w1) = true.
Proof.
  intros Hauth Hvalid Hget Hengine.
  unfold Routes.post_chat_completions, request_body.
  rewrite Hauth, Hvalid.
  rewrite (route_engine_raises w w1 h uuid_hex now r e Hget Hengine).
  split; [reflexivity|]. split; [reflexivity|].
  unfold is_loaded. simpl.
  rewrite (get_llm_returns settings path_exists Llama_init w h w1 Hget).
  reflexivity.
Qed.

(** X14: when no model is loaded and the load fails on an
    authenticated, valid request, the client gets a 500 whose detail is
    "Generation failed: Failed to load model: ..." ; the engine is not
    called and no model is loaded afterwards. *)
Theorem chat_load_failure_is_500 (authorization : option string)
    (uuid_hex : string) (now : Z) (r : ChatCompletionRequest)
    (w : World) (e : exn) :
  authenticate settings security (depends ChatCompletions) authorization =
    Ok tt ->
  validate r = Ok r ->
  _llm (manager w) = None -> _lock (manager w) = false ->
  load_result (loads w) = Raise e ->
  post_chat_completions authorization uuid_hex now r w =
    Some ({| status_code := HTTP_500_INTERNAL_SERVER_ERROR;
             body := ErrorBody ("Generation failed: " ++ str e) |},
          count_load w) /\
  (exists cause, str e = "Failed to load model: " ++ cause) /\
  calls (count_load w) = calls w /\
  is_loaded (count_load w) = false.
Proof.
  intros Hauth Hvalid Hllm Hlock Hload.
  unfold Routes.post_chat_completions, request_body.
  rewrite Hauth, Hvalid.
  rewrite (route_load_fails w uuid_hex now r e Hllm Hlock Hload).
  split; [reflexivity|]. split.
  - revert Hload. unfold Llm.load_result.
    destruct (path_exists (loads w)); simpl; [destruct (Llama_init _)|];
      intros [= <-]; simpl; eauto.
  - split; [reflexivity|]. unfold is_loaded. simpl. rewrite Hllm. reflexivity.
Qed.

(** X15: with the lock free, every chat request is answered. A request
    whose key is rejected or whose body is invalid leaves the manager
    untouched. An authenticated request is answered with a 200, a 422 or
    a 500; it makes at most one load and at most one inference call (no
    retry), leaves the lock free, and a 200 means exactly one inference
    call on a model that is loaded afterwards. *)
Theorem chat_request_effects (authorization : option string)
    (uuid_hex : string) (now : Z) (r : ChatCompletionRequest) (w : World) :
  _lock (manager w) = false ->
  (forall e,
     authenticate settings security (depends ChatCompletions) authorization =
       Raise e ->
     post_chat_completions authorization uuid_hex now r w =
       Some (respond (Raise e), w)) /\
  (authenticate settings security (depends ChatCompletions) authorization =
     Ok tt ->
   exists resp w',
     post_chat_completions authorization uuid_hex now r w = Some (resp, w') /\
     _lock (manager w') = false /\
     loads w <= loads w' <= S (loads w) /\
     calls w <= calls w' <= S (calls w) /\
     (status_code resp = HTTP_200_OK \/
      status_code resp = HTTP_422_UNPROCESSABLE_ENTITY \/
      status_code resp = HTTP_500_INTERNAL_SERVER_ERROR) /\
     (status_code resp = HTTP_422_UNPROCESSABLE_ENTITY ->
      validate r <> Ok r /\ w' = w) /\
     (status_code resp = HTTP_200_OK ->
      calls w' = S (calls w) /\ is_loaded w' = true)).
Proof.
  intros Hlock. unfold Routes.post_chat_completions.
  split; [intros e ->; reflexivity|]. intros ->.
  destruct (request_body r) as [request|e] eqn:Hbody.
  2:{ destruct (request_body_raise r e Hbody) as [errs ->].
      exists (respond (Raise (RequestValidationError errs))), w.
      split; [reflexivity|]. split; [exact Hlock|]. simpl.
      repeat split; try lia; try tauto; try discriminate.
      revert Hbody. unfold request_body, validate.
      destruct (field_errors r); discriminate. }
  apply request_body_ok in Hbody as [-> Hvalid].
  assert (forall w1 h,
            get_llm w = Some (Ok (Some h), w1) ->
            _lock (manager w1) = false ->
            loads w <= loads w1 <= S (loads w) -> calls w1 = calls w ->
            exists resp w',
              match route uuid_hex now r w with
              | Some (Ok r0, w'0) => Some (respond (Ok (ChatBody r0)), w'0)
              | Some (Raise e, w'0) => Some (respond (Raise e), w'0)
              | None => None
              end = Some (resp, w') /\
              _lock (manager w') = false /\
              loads w <= loads w' <= S (loads w) /\
              calls w <= calls w' <= S (calls w) /\
              (status_code resp = HTTP_200_OK \/
               status_code resp = HTTP_422_UNPROCESSABLE_ENTITY \/
               status_code resp = HTTP_500_INTERNAL_SERVER_ERROR) /\
              (status_code resp = HTTP_422_UNPROCESSABLE_ENTITY ->
               validate r <> Ok r /\ w' = w) /\
              (status_code resp = HTTP_200_OK ->
               calls w' = S (calls w) /\ is_loaded w' = true)) as Hloaded.
  { intros w1 h Hget Hlock1 Hloads Hcalls.
    pose proof (get_llm_returns settings path_exists Llama_init w h w1 Hget)
      as Hllm.
    destruct (route_after_get_llm w w1 h uuid_hex now r Hget)
      as (res & -> & Hres).
    destruct res as [env|e].
    - eexists _, _. split; [reflexivity|]. simpl. split; [exact Hlock1|].
      unfold is_loaded. simpl. rewrite Hllm.
      repeat split; try lia; auto; discriminate.
    - destruct Hres as [d ->]. eexists _, _. split; [reflexivity|]. simpl.
      split; [exact Hlock1|].
      repeat split; try lia; auto; discriminate. }
  destruct (_llm (manager w)) as [h|] eqn:Hllm.
  - apply (Hloaded w h);
      [apply get_llm_loaded, Hllm|exact Hlock|lia|reflexivity].
  - destruct (load_result (loads w)) as [h|e] eqn:Hload.
    + apply (Hloaded (set_llm (Some h) (count_load w)) h);
        [apply get_llm_load_ok; assumption|exact Hlock|simpl; lia|reflexivity].
    + rewrite (route_load_fails w uuid_hex now r e Hllm Hlock Hload).
      eexists _, _. split; [reflexivity|]. simpl. split; [exact Hlock|].
      repeat split; try lia; auto; discriminate.
Qed.

End ChatEndpointFacts.

(** ** Callers and reloads together *)

Section MixedFacts.
Import Calls.
Variable settings : Settings.
Variable path_exists : nat -> bool.
Variable Llama_init : nat -> option string.

Abbreviation step_pc := (step_pc settings path_exists Llama_init).
Abbreviation step := (step settings path_exists Llama_init).
Abbreviation run := (run settings path_exists Llama_init).

#[local] Open Scope nat_scope.

Lemma count_holding_fresh (ts : list pc) :
  Forall fresh ts -> count holding ts = 0.
Proof.
  unfold count. induction 1 as [|p ts [-> | ->] _ IH]; simpl; auto.
Qed.

Lemma count_holding_finished (ts : list pc) :
  forallb finished ts = true -> count holding ts = 0.
Proof.
  unfold count. induction ts as [|p ts IH]; simpl; [reflexivity|].
  intros H. apply andb_true_iff in H as [Hp Hts]. rewrite (IH Hts).
  destruct p; simpl in *; try discriminate; reflexivity.
Qed.

(** X16: any number of [get_llm] and [reload_model] calls started
    together on a manager whose lock is free, interleaved in any way and
    whatever the loads do: at no moment are two tasks inside
    [_load_model]; the run can always be continued until every task has
    finished (no deadlock); and once all have finished the lock is
    free. *)
Theorem mixed_tasks_exclusive (ts : list pc) (w0 : World)
    (schedule : list nat) :
  Forall fresh ts -> _lock (manager w0) = false ->
  count loading
    (tasks (run schedule {| world := w0; tasks := ts |})) <= 1 /\
  (exists more,
     all_finished (run (schedule ++ more) {| world := w0; tasks := ts |}) =
       true) /\
  (all_finished (run schedule {| world := w0; tasks := ts |}) = true ->
   _lock (manager (world (run schedule {| world := w0; tasks := ts |}))) =
     false).
Proof.
  intros Hfresh Hlock.
  assert (lock_inv {| world := w0; tasks := ts |}) as Hinv0.
  { unfold lock_inv. simpl. rewrite Hlock. apply count_holding_fresh, Hfresh. }
  pose proof (lock_inv_run settings path_exists Llama_init schedule _ Hinv0)
    as Hinv.
  split; [apply loads_never_overlap, Hinv|]. split.
  - destruct (run_completes settings path_exists Llama_init _ _ Hinv (le_n _))
      as [more Hmore].
    exists more. rewrite run_app. exact Hmore.
  - unfold all_finished. intros Hfin. unfold lock_inv in Hinv.
    rewrite (count_holding_finished _ Hfin) in Hinv.
    destruct (_lock (manager (world (run schedule _)))); [discriminate|].
    reflexivity.
Qed.

Lemma may_load_le_length (ts : list pc) : weigh may_load ts <= length ts.
Proof.
  induction ts as [|p ts IH]; simpl; [lia|].
  assert (may_load p <= 1) by (destruct p; simpl; lia). lia.
Qed.

Lemma step_pc_loads p w p' w' :
  step_pc p w = Some (p', w') ->
  loads w <= loads w' /\ loads w' + may_load p' <= loads w + may_load p.
Proof.
  destruct w as [[llm lock ld] n c]. destruct p; simpl; intros H;
    repeat match type of H with
           | context [match ?x with _ => _ end] => destruct x
           end; simplify_eq; simpl; lia.
Qed.

Lemma step_loads i s s' :
  step i s = Some s' ->
  loads (world s) <= loads (world s') /\
  loads (world s') + weigh may_load (tasks s') <=
    loads (world s) + weigh may_load (tasks s).
Proof.
  intros Hstep.
  destruct (step_Some _ _ _ _ _ _ Hstep) as (p & p' & w' & Hp & Hpc & ->).
  pose proof (weigh_insert may_load _ i p p' Hp).
  pose proof (step_pc_loads _ _ _ _ Hpc). simpl. lia.
Qed.

(** X17: however the tasks are interleaved and whatever the loads do,
    the number of invocations of [_load_model] never decreases and grows
    by at most one per task: [n] tasks cause at most [n] loads. *)
Theorem loads_bounded_by_tasks (schedule : list nat) : forall s : Sys,
  loads (world s) <= loads (world (run schedule s)) /\
  loads (world (run schedule s)) + weigh may_load (tasks (run schedule s)) <=
    loads (world s) + weigh may_load (tasks s) /\
  loads (world (run schedule s)) <= loads (world s) + length (tasks s).
Proof.
  induction schedule as [|i rest IH]; intros s.
  - simpl. pose proof (may_load_le_length (tasks s)). lia.
  - simpl. destruct (step i s) as [s'|] eqn:Hstep; simpl.
    + destruct (step_loads _ _ _ Hstep) as [Hmono Hbound].
      destruct (IH s') as (Hmono' & Hbound' & _).
      pose proof (may_load_le_length (tasks s)). lia.
    + apply IH.
Qed.

End MixedFacts.

(** ** The further statements at concrete inputs *)

Section FurtherWitnesses.
Import Routes Endpoints Calls Str ConfigEnv Scripts.
#[local] Open Scope nat_scope.

Lemma parse_api_keys_clean_witness :
  ("sk-a" ∈ parse_api_keys (RawStr " sk-a , ,sk-b")) /\
  (clean "sk-a").
Proof.
  assert (H1 : "sk-a" ∈ parse_api_keys (RawStr " sk-a , ,sk-b"))
    by (vm_compute; apply list_elem_of_here).
  split; [exact H1|].
  exact (parse_api_keys_clean " sk-a , ,sk-b" "sk-a" H1).
Defined.

Lemma parse_api_keys_join_witness :
  (Forall clean ["sk-a"; "sk-b"]) /\
  (parse_api_keys (RawStr (join "," ["sk-a"; "sk-b"])) = ["sk-a"; "sk-b"]).
Proof.
  assert (H1 : Forall clean ["sk-a"; "sk-b"])
    by (repeat (constructor; [split; [discriminate|split; reflexivity]|]);
        constructor).
  split; [exact H1|].
  exact (parse_api_keys_join ["sk-a"; "sk-b"] H1).
Defined.

Lemma parsed_keys_verify_witness :
  ("sk-b" ∈ parse_api_keys (RawStr " sk-a , ,sk-b")) /\
  (Auth.verify_api_key (with_api_keys default_settings (RawStr
    " sk-a , ,sk-b")) "sk-b" = Ok "sk-b").
Proof.
  assert (H1 : "sk-b" ∈ parse_api_keys (RawStr " sk-a , ,sk-b"))
    by (vm_compute; apply list_elem_of_further, list_elem_of_here).
  split; [exact H1|].
  exact (parsed_keys_verify default_settings " sk-a , ,sk-b" "sk-b" H1).
Defined.

Lemma generate_api_key_clean_witness :
  (head_ok "sk") /\
  (contains "," "sk" = false) /\
  (generate_api_key counting "sk" 4 = Ok "sk-abcd") /\
  (clean "sk-abcd").
Proof.
  assert (H1 : head_ok "sk")
    by (reflexivity).
  assert (H2 : contains "," "sk" = false)
    by (reflexivity).
  assert (H3 : generate_api_key counting "sk" 4 = Ok "sk-abcd")
    by (reflexivity).
  split; [exact H1|].
  split; [exact H2|].
  split; [exact H3|].
  exact (generate_api_key_clean counting "sk" 4%Z "sk-abcd" H1 H2 H3).
Defined.

Lemma generated_keys_configure_witness :
  (head_ok "sk") /\
  (contains "," "sk" = false) /\
  (head_ok "sk-admin") /\
  (contains "," "sk-admin" = false) /\
  (generate_api_key counting "sk" 4 = Ok "sk-abcd") /\
  (generate_api_key striding "sk-admin" 3 = Ok "sk-admin-dkr") /\
  (RawStr "sk-abcd,sk-admin-dkr" =
     RawStr ("sk-abcd" +:+ "," +:+ "sk-admin-dkr") \/
   RawStr "sk-abcd,sk-admin-dkr" = RawList ["sk-abcd"; "sk-admin-dkr"]) /\
  (api_keys (with_api_keys default_settings
     (RawStr "sk-abcd,sk-admin-dkr")) = ["sk-abcd"; "sk-admin-dkr"] /\
   Auth.verify_api_key (with_api_keys default_settings
     (RawStr "sk-abcd,sk-admin-dkr")) "sk-abcd" = Ok "sk-abcd" /\
   Auth.verify_api_key (with_api_keys default_settings
     (RawStr "sk-abcd,sk-admin-dkr")) "sk-admin-dkr" = Ok "sk-admin-dkr").
Proof.
  assert (H1 : head_ok "sk")
    by (reflexivity).
  assert (H2 : contains "," "sk" = false)
    by (reflexivity).
  assert (H3 : head_ok "sk-admin")
    by (reflexivity).
  assert (H4 : contains "," "sk-admin" = false)
    by (reflexivity).
  assert (H5 : generate_api_key counting "sk" 4 = Ok "sk-abcd")
    by (reflexivity).
  assert (H6 : generate_api_key striding "sk-admin" 3 = Ok "sk-admin-dkr")
    by (reflexivity).
  assert (H7 : RawStr "sk-abcd,sk-admin-dkr" =
                 RawStr ("sk-abcd" +:+ "," +:+ "sk-admin-dkr") \/
               RawStr "sk-abcd,sk-admin-dkr" =
                 RawList ["sk-abcd"; "sk-admin-dkr"])
    by (left; reflexivity).
  split; [exact H1|].
  split; [exact H2|].
  split; [exact H3|].
  split; [exact H4|].
  split; [exact H5|].
  split; [exact H6|].
  split; [exact H7|].
  exact (generated_keys_configure default_settings counting striding "sk"
    "sk-admin" 4%Z 3%Z "sk-abcd" "sk-admin-dkr" H1 H2 H3 H4 H5 H6
    (RawStr "sk-abcd,sk-admin-dkr") H7).
Defined.

Lemma perform_all_settled_witness :
  (settled start) /\
  (∃ w' : World, perform_all default_settings file_missing init_ok string
    stub_call stub_chat [Call Acquire; Reload; Call (Chat [("user", "Hello")]
    100 0.7 1 None)] start = Some w' ∧ settled w' ∧ loads start <= loads w' <=
    loads start + length [Call Acquire; Reload; Call (Chat [("user", "Hello")]
    100 0.7 1 None)] ∧ calls start <= calls w' <= calls start + length [Call
    Acquire; Reload; Call (Chat [("user", "Hello")] 100 0.7 1 None)]).
Proof.
  assert (H1 : settled start)
    by (split; [reflexivity|intros h Hh; discriminate Hh]).
  split; [exact H1|].
  exact (perform_all_settled default_settings file_missing init_ok string
    stub_call stub_chat [Call Acquire; Reload; Call (Chat [("user","Hello")]
    100%Z (7#10) 1%Q None)] start H1).
Defined.

Lemma lifespan_startup_never_fails_witness :
  (_lock (manager start) = false) /\
  (∃ w' : World, Main.lifespan_startup default_settings file_missing init_ok
    start = Some (Ok (), w') ∧ _lock (manager w') = false ∧ (is_loaded w' =
    true ↔ is_loaded start = true ∨ is_ok (load_result default_settings
    file_missing init_ok (loads start)) = true) ∧ (is_loaded w' = false →
    get_llm default_settings file_missing init_ok w' = Some match load_result
    default_settings file_missing init_ok (loads w') with | Ok h => (Ok (Some
    h), set_llm (Some h) (count_load w')) | Raise e => (Raise e, count_load
    w') end)).
Proof.
  assert (H1 : _lock (manager start) = false)
    by (reflexivity).
  split; [exact H1|].
  exact (lifespan_startup_never_fails default_settings file_missing init_ok
    start H1).
Defined.

Lemma models_listed_to_keys_witness :
  (bearer (Some "sk-test-key-123") = Ok "sk-test-key-123") /\
  (((get_models test_settings bearer (Some "sk-test-key-123")).2 ≠ None ↔
    "sk-test-key-123" ≠ "" ∧ "sk-test-key-123" ∈ api_keys test_settings) ∧
    ("sk-test-key-123" ≠ "" ∧ "sk-test-key-123" ∈ api_keys test_settings →
    get_models test_settings bearer (Some "sk-test-key-123") = (HTTP_200_OK,
    Some {| list_object := "list"; data := [{| info_id := model_name
    test_settings; info_object := "model"; owned_by := "local" |}] |})) ∧ (¬
    ("sk-test-key-123" ≠ "" ∧ "sk-test-key-123" ∈ api_keys test_settings) →
    get_models test_settings bearer (Some "sk-test-key-123") =
    (HTTP_401_UNAUTHORIZED, None))).
Proof.
  assert (H1 : bearer (Some "sk-test-key-123") = Ok "sk-test-key-123")
    by (reflexivity).
  split; [exact H1|].
  exact (models_listed_to_keys test_settings bearer (Some "sk-test-key-123")
    "sk-test-key-123" H1).
Defined.

Lemma admin_info_to_admin_witness :
  (bearer (Some "sk-admin-test-key") = Ok "sk-admin-test-key") /\
  ("sk-admin-test-key" <> "") /\
  (((get_admin_info test_settings bearer (Some "sk-admin-test-key")
       loaded_world).2 <> None <->
    "sk-admin-test-key" = admin_api_key test_settings) /\
   ("sk-admin-test-key" = admin_api_key test_settings ->
    get_admin_info test_settings bearer (Some "sk-admin-test-key")
      loaded_world =
    (HTTP_200_OK,
     Some {| info_model_name := model_name test_settings;
             info_model_path := model_path test_settings;
             info_n_ctx := n_ctx test_settings;
             info_n_gpu_layers := n_gpu_layers test_settings;
             info_model_loaded := is_loaded loaded_world |})) /\
   ("sk-admin-test-key" <> admin_api_key test_settings ->
    get_admin_info test_settings bearer (Some "sk-admin-test-key")
      loaded_world = (HTTP_403_FORBIDDEN, None))).
Proof.
  assert (H1 : bearer (Some "sk-admin-test-key") = Ok "sk-admin-test-key")
    by (reflexivity).
  assert (H2 : "sk-admin-test-key" <> "")
    by (discriminate).
  split; [exact H1|].
  split; [exact H2|].
  exact (admin_info_to_admin test_settings bearer (Some "sk-admin-test-key")
    "sk-admin-test-key" loaded_world H1 H2).
Defined.

Lemma admin_reload_outcomes_witness :
  (bearer (Some "sk-admin-test-key") = Ok "sk-admin-test-key") /\
  (_lock (manager loaded_world) = false) /\
  ((¬ ("sk-admin-test-key" ≠ "" ∧ "sk-admin-test-key" = admin_api_key
    test_settings) → ∃ resp : Response, post_admin_reload test_settings
    file_missing init_ok bearer (Some "sk-admin-test-key") loaded_world = Some
    (resp, loaded_world) ∧ (status_code resp = HTTP_401_UNAUTHORIZED ∨
    status_code resp = HTTP_403_FORBIDDEN)) ∧ ("sk-admin-test-key" ≠ "" ∧
    "sk-admin-test-key" = admin_api_key test_settings → ∀ h : Llama,
    load_result test_settings file_missing init_ok (loads loaded_world) = Ok h
    → post_admin_reload test_settings file_missing init_ok bearer (Some
    "sk-admin-test-key") loaded_world = Some ({| status_code := HTTP_200_OK;
    body := ReloadBody {| reload_status := "success"; reload_message :=
    "Model reloaded successfully" |} |}, set_llm (Some h) (count_load
    loaded_world))) ∧ ("sk-admin-test-key" ≠ "" ∧ "sk-admin-test-key" =
    admin_api_key test_settings → ∀ e : exn, load_result test_settings
    file_missing init_ok (loads loaded_world) = Raise e → post_admin_reload
    test_settings file_missing init_ok bearer (Some "sk-admin-test-key")
    loaded_world = Some ({| status_code := HTTP_500_INTERNAL_SERVER_ERROR;
    body := ErrorBody ("Model reload failed: " +:+ str e) |}, set_llm None
    (count_load loaded_world)) ∧ is_loaded (set_llm None (count_load
    loaded_world)) = false)).
Proof.
  assert (H1 : bearer (Some "sk-admin-test-key") = Ok "sk-admin-test-key")
    by (reflexivity).
  assert (H2 : _lock (manager loaded_world) = false)
    by (reflexivity).
  split; [exact H1|].
  split; [exact H2|].
  exact (admin_reload_outcomes test_settings file_missing init_ok bearer (Some
    "sk-admin-test-key") "sk-admin-test-key" loaded_world H1 H2).
Defined.

Lemma chat_engine_failure_is_500_witness :
  (authenticate test_settings bearer (depends ChatCompletions) (Some
    "sk-test-key-123") = Ok ()) /\
  (validate hello = Ok hello) /\
  (get_llm test_settings file_present init_ok start = Some (Ok (Some
    first_handle), loaded_world)) /\
  (broken_chat first_handle (calls loaded_world) (map (λ msg : Message, (role
    msg, content msg)) (messages hello)) (max_tokens hello) (temperature
    hello) (top_p hello) (stop hello) = Raise (EngineError
    "llama_decode returned -1")) /\
  (post_chat_completions test_settings file_present init_ok broken_chat bearer
    (Some "sk-test-key-123") "0123456789abcdef" 1700000000 hello start = Some
    ({| status_code := HTTP_500_INTERNAL_SERVER_ERROR; body := ErrorBody
    ("Generation failed: Chat completion failed: " +:+ str (EngineError
    "llama_decode returned -1")) |}, count_call loaded_world) ∧ calls
    (count_call loaded_world) = S (calls loaded_world) ∧ is_loaded (count_call
    loaded_world) = true).
Proof.
  assert (H1 : authenticate test_settings bearer (depends ChatCompletions)
    (Some "sk-test-key-123") = Ok ())
    by (reflexivity).
  assert (H2 : validate hello = Ok hello)
    by (reflexivity).
  assert (H3 : get_llm test_settings file_present init_ok start = Some (Ok
    (Some first_handle), loaded_world))
    by (reflexivity).
  assert (H4 : broken_chat first_handle (calls loaded_world) (map (λ msg :
    Message, (role msg, content msg)) (messages hello)) (max_tokens hello)
    (temperature hello) (top_p hello) (stop hello) = Raise (EngineError
    "llama_decode returned -1"))
    by (reflexivity).
  split; [exact H1|].
  split; [exact H2|].
  split; [exact H3|].
  split; [exact H4|].
  exact (chat_engine_failure_is_500 test_settings file_present init_ok
    broken_chat bearer (Some "sk-test-key-123") "0123456789abcdef"
    1700000000%Z hello start loaded_world first_handle (EngineError
    "llama_decode returned -1") H1 H2 H3 H4).
Defined.

Lemma chat_load_failure_is_500_witness :
  (authenticate test_settings bearer (depends ChatCompletions) (Some
    "sk-test-key-123") = Ok ()) /\
  (validate hello = Ok hello) /\
  (_llm (manager start) = None) /\
  (_lock (manager start) = false) /\
  (load_result test_settings file_missing init_ok (loads start) = Raise
    missing_model_error) /\
  (post_chat_completions test_settings file_missing init_ok stub_chat bearer
    (Some "sk-test-key-123") "0123456789abcdef" 1700000000 hello start = Some
    ({| status_code := HTTP_500_INTERNAL_SERVER_ERROR; body := ErrorBody
    ("Generation failed: " +:+ str missing_model_error) |}, count_load start)
    ∧ (∃ cause : string, str missing_model_error = "Failed to load model: "
    +:+ cause) ∧ calls (count_load start) = calls start ∧ is_loaded
    (count_load start) = false).
Proof.
  assert (H1 : authenticate test_settings bearer (depends ChatCompletions)
    (Some "sk-test-key-123") = Ok ())
    by (reflexivity).
  assert (H2 : validate hello = Ok hello)
    by (reflexivity).
  assert (H3 : _llm (manager start) = None)
    by (reflexivity).
  assert (H4 : _lock (manager start) = false)
    by (reflexivity).
  assert (H5 : load_result test_settings file_missing init_ok (loads start) =
    Raise missing_model_error)
    by (reflexivity).
  split; [exact H1|].
  split; [exact H2|].
  split; [exact H3|].
  split; [exact H4|].
  split; [exact H5|].
  exact (chat_load_failure_is_500 test_settings file_missing init_ok stub_chat
    bearer (Some "sk-test-key-123") "0123456789abcdef" 1700000000%Z hello
    start missing_model_error H1 H2 H3 H4 H5).
Defined.

Lemma chat_request_effects_witness :
  (_lock (manager start) = false) /\
  ((∀ e : exn, authenticate test_settings bearer (depends ChatCompletions)
    (Some "sk-test-key-123") = Raise e → post_chat_completions test_settings
    file_present init_ok stub_chat bearer (Some "sk-test-key-123")
    "0123456789abcdef" 1700000000 hello start = Some (respond (Raise e),
    start)) ∧ (authenticate test_settings bearer (depends ChatCompletions)
    (Some "sk-test-key-123") = Ok () → ∃ (resp : Response) (w' : World),
    post_chat_completions test_settings file_present init_ok stub_chat bearer
    (Some "sk-test-key-123") "0123456789abcdef" 1700000000 hello start = Some
    (resp, w') ∧ _lock (manager w') = false ∧ loads start <= loads w' <= S
    (loads start) ∧ calls start <= calls w' <= S (calls start) ∧ (status_code
    resp = HTTP_200_OK ∨ status_code resp = HTTP_422_UNPROCESSABLE_ENTITY ∨
    status_code resp = HTTP_500_INTERNAL_SERVER_ERROR) ∧ (status_code resp =
    HTTP_422_UNPROCESSABLE_ENTITY → validate hello ≠ Ok hello ∧ w' = start) ∧
    (status_code resp = HTTP_200_OK → calls w' = S (calls start) ∧ is_loaded
    w' = true))).
Proof.
  assert (H1 : _lock (manager start) = false)
    by (reflexivity).
  split; [exact H1|].
  exact (chat_request_effects test_settings file_present init_ok stub_chat
    bearer (Some "sk-test-key-123") "0123456789abcdef" 1700000000%Z hello
    start H1).
Defined.

Lemma mixed_tasks_exclusive_witness :
  (Forall fresh [G40; R100; G40]) /\
  (_lock (manager start) = false) /\
  (count loading (tasks (run default_settings file_missing init_ok [ 0; 1; 2;
    1; 0] {| world := start; tasks := [G40; R100; G40] |})) <= 1 ∧ (∃ more :
    list nat, all_finished (run default_settings file_missing init_ok ([0; 1;
    2; 1; 0] ++ more) {| world := start; tasks := [G40; R100; G40] |}) = true)
    ∧ (all_finished (run default_settings file_missing init_ok [0; 1; 2; 1; 0]
    {| world := start; tasks := [G40; R100; G40] |}) = true → _lock (manager
    (world (run default_settings file_missing init_ok [0; 1; 2; 1; 0] {| world
    := start; tasks := [G40; R100; G40] |}))) = false)).
Proof.
  assert (H1 : Forall fresh [G40; R100; G40])
    by (repeat (constructor; [first [left; reflexivity|right; reflexivity]|]);
        constructor).
  assert (H2 : _lock (manager start) = false)
    by (reflexivity).
  split; [exact H1|].
  split; [exact H2|].
  exact (mixed_tasks_exclusive default_settings file_missing init_ok [G40;
    R100; G40] start [0; 1; 2; 1; 0] H1 H2).
Defined.

End FurtherWitnesses.
